(** * SpriteMapMaterial: lookup buffers and compositing sampler

    A shallow embedding of [materialsLibrary/src/custom/spriteMap/spriteMapMaterial.ts].

    - JavaScript numbers and GLSL floats are rationals ([Q]).  A store
      into a [Float32Array] rounds to single precision ([fround]); the
      arithmetic of the shader is exact.  The arrays that the builders
      convert hold pixel counts, sprite indices and flags, which single
      precision keeps as they are.
    - Sizes and indices that the source uses as integers (array indices,
      stage size, layer count, frame slots) are [nat] or [Z].
    - A [RawTexture] is the float data it was created from together with
      its width and height; [_bufferView] is nullable as in the source.
    - Methods that mutate [this] or their arguments are written in a small
      state-and-exception monad; a [TypeError] is the only exception the
      class can raise by itself. *)

From Stdlib Require Import ZArith QArith Qabs Qround Qminmax Lia Lqa Bool Ascii.
From stdpp Require Import base list gmap strings pretty.

Local Open Scope Z_scope.

(** ** JavaScript run-time conventions *)

Module Js.

Inductive Error : Type := TypeError.

Inductive Completion (A : Type) : Type :=
| Normal (a : A)
| Throw (e : Error).
Arguments Normal {A} a.
Arguments Throw {A} e.

(** Computations over a mutable store [S]: the store survives a throw. *)
Definition Eff (S A : Type) : Type := S -> Completion A * S.

Definition ret {S A} (a : A) : Eff S A := fun s => (Normal a, s).
Definition throw {S A} (e : Error) : Eff S A := fun s => (Throw e, s).
Definition bind {S A B} (m : Eff S A) (k : A -> Eff S B) : Eff S B :=
  fun s => match m s with
           | (Normal a, s') => k a s'
           | (Throw e, s') => (Throw e, s')
           end.
Definition get {S} : Eff S S := fun s => (Normal s, s).
Definition put {S} (s : S) : Eff S unit := fun _ => (Normal tt, s).

(** Exceptions alone, for code that only touches locals. *)
Definition bindC {A B} (m : Completion A) (k : A -> Completion B) : Completion B :=
  match m with
  | Normal a => k a
  | Throw e => Throw e
  end.

(** Reading a property of [o]: a [TypeError] when [o] is [undefined]. *)
Definition deref {A} (o : option A) : Completion A :=
  match o with
  | Some a => Normal a
  | None => Throw TypeError
  end.

(** [c ? 1 : 0] on a possibly missing boolean. *)
Definition truthy (o : option bool) : bool :=
  match o with
  | Some b => b
  | None => false
  end.

(** [Math.floor]. *)
Definition floor (x : Q) : Q := inject_Z (Qfloor x).

(** [data[idx] = v] on a plain [Array], for an index inside the array
    (every write of the class to a plain array is inside it, see
    [writeSprite_indices_in_range]). *)
Definition arraySet (data : list Q) (idx : nat) (v : Q) : list Q :=
  <[idx := v]> data.

(** Powers of two, [2 ^ e] for any whole [e]. *)
Definition pow2 (e : Z) : Q :=
  if 0 <=? e then inject_Z (2 ^ e) else 1 # Z.to_pos (2 ^ (- e)).

(** The binary exponent of a positive [n / d]: the [e] with
    [2 ^ e <= n / d < 2 ^ (e + 1)]. *)
Definition exponent (n : Z) (d : positive) : Z :=
  let e := Z.log2 n - Z.log2 (Z.pos d) in
  let below :=
    if 0 <=? e then Z.pos d * 2 ^ e <=? n else Z.pos d <=? n * 2 ^ (- e) in
  if below then e else e - 1.

(** The whole number nearest to a non-negative [n / d], the even one of
    two that are equally near. *)
Definition nearestEven (n : Z) (d : positive) : Z :=
  let q := n / Z.pos d in
  match 2 * (n mod Z.pos d) ?= Z.pos d with
  | Lt => q
  | Gt => q + 1
  | Eq => if Z.even q then q else q + 1
  end.

(** [Math.fround], the conversion a [Float32Array] applies to what is
    stored in it: the nearest number with a 24-bit significand, ties to
    even, in steps of [2 ^ -149] below [2 ^ -126].  A number that rounds
    to [2 ^ 128] or beyond is stored as an infinity, which [Q] does not
    have; see [float32Range]. *)
Definition fround (v : Q) : Q :=
  if Qnum v =? 0 then 0%Q
  else
    let e := Z.max (exponent (Z.abs (Qnum v)) (Qden v)) (-126) in
    let ulp := pow2 (e - 23) in
    let k := (Qabs v / ulp)%Q in
    Qred (inject_Z (Z.sgn (Qnum v) * nearestEven (Qnum k) (Qden k)) * ulp).

(** The numbers that [fround] takes to a finite float: those of
    magnitude below [2 ^ 128 - 2 ^ 103]. *)
Definition float32Range (v : Q) : Prop :=
  (Qabs v < inject_Z (2 ^ 128 - 2 ^ 103))%Q.

(** [buffer[id] = v] on a [Float32Array]: the element becomes
    [fround v]; an index that is not an element index of the view is
    ignored, the view never grows. *)
Definition typedSet (buffer : list Q) (id : Z) (v : Q) : list Q :=
  if decide (0 <= id < Z.of_nat (length buffer))
  then <[Z.to_nat id := fround v]> buffer
  else buffer.

End Js.

Import Js.

Declare Scope eff_scope.
Delimit Scope eff_scope with eff.
Notation "x <- m ;; k" := (bind m (fun x => k))
  (at level 100, m at next level, right associativity) : eff_scope.
Notation "m ;;; k" := (bind m (fun _ => k))
  (at level 100, right associativity) : eff_scope.
Notation "'try!' x <- m ; k" := (bindC m (fun x => k))
  (at level 100, x name, m at next level, right associativity).

(** ** Data model *)

Record Vector2 : Type := mkVector2 { x : Q; y : Q }.

(** [frame] and [spriteSourceSize] of an atlas entry. *)
Record Rect : Type := mkRect { rx : Q; ry : Q; rw : Q; rh : Q }.

(** [sourceSize] of an atlas entry. *)
Record Size : Type := mkSize { sw : Q; sh : Q }.

(** One entry of [atlas.frames].  The atlas is parsed JSON, so any of the
    properties can be absent at run time. *)
Record ISpriteJSONSprite : Type := mkSprite {
  frame : option Rect;
  spriteSourceSize : option Rect;
  sourceSize : option Size;
  rotated : option bool;
  trimmed : option bool
}.

Record RawTexture : Type := mkRawTexture {
  _bufferView : option (list Q);
  width : Z;
  height : Z
}.

(** [RawTexture.CreateRGBATexture(data, width, height, ...)]. *)
Definition CreateRGBATexture (data : list Q) (w h : Z) : RawTexture :=
  {| _bufferView := Some data; width := w; height := h |}.

(** ** [_buildFrameBuffer] *)

(** First pass: sixteen zeros per sprite. *)
Fixpoint firstPass (n : nat) (data : list Q) : list Q :=
  match n with
  | O => data
  | S k =>
      firstPass k
        (data ++ [0; 0; 0; 0]%Q ++ [0; 0; 0; 0]%Q ++ [0; 0; 0; 0]%Q ++ [0; 0; 0; 0]%Q)
  end.

Definition flag (b : bool) : Q := if b then 1%Q else 0%Q.

(** Body of the second pass for sprite [i]. *)
Definition writeSprite (spriteCount i : nat) (s : ISpriteJSONSprite)
    (data : list Q) : Completion (list Q) :=
  let r := flag (truthy (rotated s)) in
  let t := flag (truthy (trimmed s)) in
  try! f <- deref (frame s);
  let data := arraySet data (i * 4) (rx f) in
  let data := arraySet data (i * 4 + 1) (ry f) in
  let data := arraySet data (i * 4 + 2) (rw f) in
  let data := arraySet data (i * 4 + 3) (rh f) in
  try! sss <- deref (spriteSourceSize s);
  let data := arraySet data (i * 4 + (spriteCount * 4)) (rx sss) in
  let data := arraySet data (i * 4 + 1 + (spriteCount * 4)) (ry sss) in
  let data := arraySet data (i * 4 + 3 + (spriteCount * 4)) (rh sss) in
  try! ss <- deref (sourceSize s);
  let data := arraySet data (i * 4 + (spriteCount * 8)) (sw ss) in
  let data := arraySet data (i * 4 + 1 + (spriteCount * 8)) (sh ss) in
  let data := arraySet data (i * 4 + 2 + (spriteCount * 8)) r in
  let data := arraySet data (i * 4 + 3 + (spriteCount * 8)) t in
  Normal data.

(** Second pass, from sprite [i] on; [rest] are the sprites [i], [i+1], ... *)
Fixpoint secondPass (spriteCount i : nat) (rest : list ISpriteJSONSprite)
    (data : list Q) : Completion (list Q) :=
  match rest with
  | [] => Normal data
  | s :: rest' =>
      try! data <- writeSprite spriteCount i s data;
      secondPass spriteCount (S i) rest' data
  end.

Definition _buildFrameBuffer (sprites : list ISpriteJSONSprite) : Completion RawTexture :=
  let spriteCount := length sprites in
  let data := firstPass spriteCount [] in
  try! data <- secondPass spriteCount 0 sprites data;
  Normal (CreateRGBATexture data (Z.of_nat spriteCount) 4).

(** ** Construction parameters *)

(** [params.stageSize]: the stage measured in whole cells. *)
Record StageSize : Type := mkStageSize { stageX : Z; stageY : Z }.

(** The argument of the constructor.  Only the properties that the
    buffers and the sampler read are kept; the scene, the source images,
    [outputSize] and [colorMultiply] are passed through to the engine. *)
Module Arg.
Record ISpriteMapMaterial : Type := mk {
  stageSize : StageSize;
  atlas : list ISpriteJSONSprite;
  layerCount : option Z;
  maxAnimationFrames : option Z;
  baseTile : option Q;
  flipU : option bool
}.
End Arg.

(** [this.params] once the constructor has filled in the defaults. *)
Record Params : Type := mkParams {
  stageSize : StageSize;
  atlas : list ISpriteJSONSprite;
  layerCount : Z;
  maxAnimationFrames : Z;
  baseTile : Q;
  flipU : bool
}.

(** [a ?? d]. *)
Definition nullish {A} (a : option A) (d : A) : A :=
  match a with
  | Some v => v
  | None => d
  end.

(** [n || 0] on a whole number. *)
Definition orZero (n : Z) : Z := if n =? 0 then 0 else n.

Definition sprites (p : Params) : list ISpriteJSONSprite := atlas p.
Definition spriteCount (p : Params) : Z := Z.of_nat (length (sprites p)).

(** ** [_createTileBuffer] *)

(** Inner loop, [for (x = 0; x < _tx * 4; x += 4)]. *)
Fixpoint pushCells (cells : nat) (bt : Q) (data : list Q) : list Q :=
  match cells with
  | O => data
  | S k => pushCells k bt (data ++ [bt; 0; 0; 0]%Q)
  end.

(** Outer loop, [for (y = 0; y < _ty; y++)]. *)
Fixpoint pushRows (rows cells : nat) (bt : Q) (data : list Q) : list Q :=
  match rows with
  | O => data
  | S k => pushRows k cells bt (pushCells cells bt data)
  end.

Definition _createTileBuffer (p : Params) (buffer : option (list Q)) (_layer : Z)
    : RawTexture :=
  let _ty := orZero (stageY (stageSize p)) in
  let _tx := orZero (stageX (stageSize p)) in
  let data :=
    match buffer with
    | None =>
        let bt := if negb (_layer =? 0) then 0%Q else baseTile p in
        pushRows (Z.to_nat _ty) (Z.to_nat _tx) bt []
    | Some buffer => buffer
    end in
  CreateRGBATexture data _tx _ty.

(** ** [_createTileAnimationBuffer] *)

(** [for (j = 1; j < maxAnimationFrames; j++) data.push(0, 0, 0, 0)]. *)
Fixpoint pushSlots (slots : nat) (data : list Q) : list Q :=
  match slots with
  | O => data
  | S k => pushSlots k (data ++ [0; 0; 0; 0]%Q)
  end.

Fixpoint pushAnimationRows (n slots : nat) (data : list Q) : list Q :=
  match n with
  | O => data
  | S k => pushAnimationRows k slots (pushSlots slots (data ++ [0; 0; 0; 0]%Q))
  end.

(** The [?? 1] on [maxAnimationFrames] is already applied in [Params]. *)
Definition _createTileAnimationBuffer (p : Params) (buffer : option (list Q))
    : RawTexture :=
  let floatArray :=
    match buffer with
    | None =>
        pushAnimationRows (Z.to_nat (spriteCount p))
          (Z.to_nat (maxAnimationFrames p - 1)) []
    | Some buffer => buffer
    end in
  CreateRGBATexture floatArray (spriteCount p) (maxAnimationFrames p).

(** ** The material and its constructor *)

Record SpriteMapMaterial : Type := mkMaterial {
  params : Params;
  _frameBuffer : RawTexture;
  _tileBuffers : list RawTexture;
  _animationBuffer : RawTexture
}.

Definition defaults (a : Arg.ISpriteMapMaterial) : Params :=
  {| stageSize := Arg.stageSize a;
     atlas := Arg.atlas a;
     layerCount := nullish (Arg.layerCount a) 1;
     maxAnimationFrames := nullish (Arg.maxAnimationFrames a) 1;
     baseTile := nullish (Arg.baseTile a) 0%Q;
     flipU := nullish (Arg.flipU a) false |}.

(** [for (i = 0; i < layerCount; i++) _tileBuffers.push(_createTileBuffer(null, i))]. *)
Fixpoint pushTileBuffers (p : Params) (n : nat) (i : Z) (acc : list RawTexture)
    : list RawTexture :=
  match n with
  | O => acc
  | S k => pushTileBuffers p k (i + 1) (acc ++ [_createTileBuffer p None i])
  end.

(** [new SpriteMapMaterial(name, params)].  The calls that register
    uniforms and shader fragments with the engine build no state of the
    class and are left out. *)
Definition constructor (a : Arg.ISpriteMapMaterial) : Completion SpriteMapMaterial :=
  let p := defaults a in
  try! fb <- _buildFrameBuffer (sprites p);
  let ab := _createTileAnimationBuffer p None in
  let tbs := pushTileBuffers p (Z.to_nat (layerCount p)) 0 [] in
  Normal {| params := p; _frameBuffer := fb; _tileBuffers := tbs;
            _animationBuffer := ab |}.

(** ** [addAnimationToTile] *)

Definition addAnimationToTile (cellID _frame : Z) (toCell time speed : Q)
    : Eff SpriteMapMaterial unit :=
  (this <- get;;
   let buffer := _bufferView (_animationBuffer this) in
   let id := cellID * 4 + spriteCount (params this) * 4 * _frame in
   match buffer with
   | None => ret tt
   | Some buffer =>
       let buffer := typedSet buffer id toCell in
       let buffer := typedSet buffer (id + 1) time in
       let buffer := typedSet buffer (id + 2) speed in
       let t := _createTileAnimationBuffer (params this) (Some buffer) in
       put {| params := params this; _frameBuffer := _frameBuffer this;
              _tileBuffers := _tileBuffers this; _animationBuffer := t |}
   end)%eff.

(** ** [changeTiles] *)

(** The caller's [Vector2] objects live in a heap and are passed by
    reference; the store of [changeTiles] is the material and that heap. *)
Definition loc : Type := positive.

Record Store : Type := mkStore {
  this : SpriteMapMaterial;
  heap : gmap loc Vector2
}.

(** [pos: Vector2 | Vector2[]]. *)
Inductive Positions : Type :=
| One (pos : loc)
| Many (pos : list loc).

(** [this._tileBuffers[_layer]]. *)
Definition tileBufferAt (m : SpriteMapMaterial) (_layer : Z) : option RawTexture :=
  if decide (0 <= _layer) then _tileBuffers m !! Z.to_nat _layer else None.

Definition setTileBuffer (m : SpriteMapMaterial) (_layer : Z) (t : RawTexture)
    : SpriteMapMaterial :=
  {| params := params m; _frameBuffer := _frameBuffer m;
     _tileBuffers := <[Z.to_nat _layer := t]> (_tileBuffers m);
     _animationBuffer := _animationBuffer m |}.

(** [buffer = this._tileBuffers[_layer]._texture._bufferView]. *)
Definition readBuffer (_layer : Z) : Eff Store (option (list Q)) :=
  (s <- get;;
   match tileBufferAt (this s) _layer with
   | Some t => ret (_bufferView t)
   | None => throw TypeError
   end)%eff.

(** [buffer[id] = v]: [buffer] is the view of the live texture of the
    layer, so the write goes through to it. *)
Definition storeElement (_layer id : Z) (v : Q) : Eff Store unit :=
  (s <- get;;
   let write (t : RawTexture) :=
     {| _bufferView := (fun buffer => typedSet buffer id v) <$> _bufferView t;
        width := width t; height := height t |} in
   put {| this :=
            {| params := params (this s); _frameBuffer := _frameBuffer (this s);
               _tileBuffers := alter write (Z.to_nat _layer) (_tileBuffers (this s));
               _animationBuffer := _animationBuffer (this s) |};
          heap := heap s |})%eff.

(** [p[i]]: a [TypeError] follows when the element is not an object. *)
Definition readVector (l : loc) : Eff Store Vector2 :=
  (s <- get;;
   match heap s !! l with
   | Some v => ret v
   | None => throw TypeError
   end)%eff.

Definition writeVector (l : loc) (v : Vector2) : Eff Store unit :=
  (s <- get;; put {| this := this s; heap := <[l := v]> (heap s) |})%eff.

(** Flat index of the cell that a floored position addresses. *)
Definition cellIndex (_tx : Z) (_p : Vector2) : Z :=
  Qfloor (x _p) * 4 + Qfloor (y _p) * (_tx * 4).

(** [for (i = 0; i < p.length; i++)]. *)
Fixpoint changeTilesLoop (_layer _tx : Z) (tile : Q) (p : list loc) : Eff Store unit :=
  match p with
  | [] => ret tt
  | l :: p' =>
      (_p <- readVector l;;
       writeVector l {| x := floor (x _p); y := y _p |};;;
       writeVector l {| x := floor (x _p); y := floor (y _p) |};;;
       let id := cellIndex _tx {| x := floor (x _p); y := floor (y _p) |} in
       storeElement _layer id tile;;;
       changeTilesLoop _layer _tx tile p')%eff
  end.

Definition changeTiles (_layer : Z) (pos : Positions) (tile : Q) : Eff Store unit :=
  (buffer <- readBuffer _layer;;
   match buffer with
   | None => ret tt
   | Some _ =>
       let p := match pos with One pos => [pos] | Many pos => pos end in
       s <- get;;
       let _tx := orZero (stageX (stageSize (params (this s)))) in
       changeTilesLoop _layer _tx tile p;;;
       buffer <- readBuffer _layer;;
       s <- get;;
       let t := _createTileBuffer (params (this s)) buffer 0 in
       put {| this := setTileBuffer (this s) _layer t; heap := heap s |}
   end)%eff.

(** ** GLSL values and built-ins *)

Module Glsl.

Local Open Scope Q_scope.

Record vec2 : Type := mkVec2 { x2 : Q; y2 : Q }.
Record vec4 : Type := mkVec4 { x4 : Q; y4 : Q; z4 : Q; w4 : Q }.
(** A [mat4] built from four [vec4]: [m[k]] is the k-th of them. *)
Record mat4 : Type := mkMat4 { m0 : vec4; m1 : vec4; m2 : vec4; m3 : vec4 }.

Definition vec4_0 : vec4 := mkVec4 0 0 0 0.

Definition floor (a : Q) : Q := inject_Z (Qfloor a).
Definition fract (a : Q) : Q := a - floor a.
(** [mod(a, b) = a - b * floor(a / b)]. *)
Definition mod_ (a b : Q) : Q := a - b * floor (a / b).
(** [mix(a, b, t) = a * (1 - t) + b * t]. *)
Definition mix (a b t : Q) : Q := a * (1 - t) + b * t.
Definition min (a b : Q) : Q := if Qle_bool a b then a else b.
(** [a > b] and [a == b] on floats. *)
Definition gt (a b : Q) : bool := negb (Qle_bool a b).
Definition eq (a b : Q) : bool := Qeq_bool a b.

(** [clamp(a, lo, hi)] on whole numbers. *)
Definition clamp (a lo hi : Z) : Z := Z.max lo (Z.min hi a).

(** The texel at column [col], row [row] of a float RGBA texture whose
    rows are stored one after the other.  A [RawTexture] is addressed
    clamped to its edge: outside the texture the nearest texel of the
    border is read.  A texture without data reads as zero. *)
Definition texel (t : RawTexture) (col row : Z) : vec4 :=
  let col := clamp col 0 (width t - 1) in
  let row := clamp row 0 (height t - 1) in
  let data := nullish (_bufferView t) [] in
  let at_ (k : Z) := nullish (data !! Z.to_nat ((row * width t + col) * 4 + k)) 0 in
  mkVec4 (at_ 0%Z) (at_ 1%Z) (at_ 2%Z) (at_ 3%Z).

(** [texture2D] on a texture created with [NEAREST_NEAREST]: the texel
    that contains the coordinate. *)
Definition texture2D (t : RawTexture) (coord : vec2) : vec4 :=
  texel t (Qfloor (x2 coord * inject_Z (width t)))
          (Qfloor (y2 coord * inject_Z (height t))).

End Glsl.

(** ** The fragment shader assembled by the constructor *)

Module Shader.

Import Glsl.
Local Open Scope Q_scope.

(** Everything the generated source reads from outside [main]: the
    constants the constructor writes into the source, the uniforms it
    registers, and the content of a [float] local that is declared and
    never assigned. *)
Record Inputs : Type := mkInputs {
  LAYERS : Z;
  FLIPU : bool;
  MAX_ANIMATION_FRAMES : Z;
  time : Q;
  spriteCount : Q;
  spriteMapSize : vec2;
  stageSize : vec2;
  spriteDiffuse : vec2 -> vec4;
  frameBuffer : RawTexture;
  animationBuffer : RawTexture;
  tileBuffers : list RawTexture;
  unassigned : Q
}.

Definition fdStep : Q := 1 / 4.

(** The variables that live across the iterations of the layer loop. *)
Record Locals : Type := mkLocals { sColor : vec4; tileUV : vec2 }.

Section Fragment.

Variable U : Inputs.

Definition aFrameSteps : Q := 1 / inject_Z (MAX_ANIMATION_FRAMES U).

Definition getFrameData (frameID : Q) : mat4 :=
  let fX := frameID / spriteCount U in
  mkMat4 (texture2D (frameBuffer U) (mkVec2 fX 0))
         (texture2D (frameBuffer U) (mkVec2 fX (fdStep * 1)))
         (texture2D (frameBuffer U) (mkVec2 fX (fdStep * 2)))
         vec4_0.

(** The [switch (i)] generated from [layerCount]: one case per layer,
    no default. *)
Definition layerSample (i : Z) (tileID : vec2) : Q :=
  match (if decide (0 <= i < LAYERS U)%Z then tileBuffers U !! Z.to_nat i else None) with
  | Some t =>
      x4 (texture2D t (mkVec2 ((x2 tileID + (1 # 2)) / x2 (stageSize U))
                              ((y2 tileID + (1 # 2)) / y2 (stageSize U))))
  | None => unassigned U
  end.

(** [for (float f = 0.; f < MAX_ANIMATION_FRAMES; f++)], with [n]
    iterations left. *)
Fixpoint animationLoop (n : nat) (f mt frameID : Q) (animationData : vec4) : Q :=
  match n with
  | O => frameID
  | S k =>
      if gt (y4 animationData) mt then x4 animationData
      else
        animationLoop k (f + 1) mt frameID
          (texture2D (animationBuffer U)
             (mkVec2 ((frameID + (1 # 2)) / spriteCount U) (aFrameSteps * f)))
  end.

Definition resolveAnimation (frameID : Q) : Q :=
  let animationData :=
    texture2D (animationBuffer U)
      (mkVec2 ((frameID + (1 # 2)) / spriteCount U) 0) in
  if gt (y4 animationData) 0 then
    let mt := mod_ (time U * z4 animationData) 1 in
    animationLoop (Z.to_nat (MAX_ANIMATION_FRAMES U)) 0 mt frameID animationData
  else frameID.

(** From the tile lookup to the rotation swap: the new [tileUV] and
    the coordinate at which the source image is read.  The local
    [ratio] of the source is computed and never read. *)
Definition layerCoord (i : Z) (tileID tileUV : vec2) : vec2 * vec2 :=
  let frameID := layerSample i tileID in
  let frameID := resolveAnimation frameID in
  let frameData := getFrameData (frameID + (1 # 2)) in
  let frameSize := mkVec2 (w4 (m0 frameData) / x2 (spriteMapSize U))
                          (z4 (m0 frameData) / y2 (spriteMapSize U)) in
  let sheetUnits := mkVec2 (1 / x2 (spriteMapSize U)) (1 / y2 (spriteMapSize U)) in
  let offset := mkVec2 (x4 (m0 frameData) * x2 sheetUnits)
                       (y4 (m0 frameData) * y2 sheetUnits) in
  let tileUV :=
    if eq (z4 (m2 frameData)) 1 then mkVec2 (y2 tileUV) (x2 tileUV) else tileUV in
  (tileUV, mkVec2 (x2 tileUV * x2 frameSize + x2 offset)
                  (y2 tileUV * y2 frameSize + y2 offset)).

(** [i == 0] seeds [sColor]; the other layers are blended over it. *)
Definition blend (i : Z) (sColor nc : vec4) : vec4 :=
  if (i =? 0)%Z then nc
  else
    let alpha := min (w4 sColor + w4 nc) 1 in
    mkVec4 (mix (x4 sColor) (x4 nc) (w4 nc))
           (mix (y4 sColor) (y4 nc) (w4 nc))
           (mix (z4 sColor) (z4 nc) (w4 nc))
           alpha.

Definition layerBody (i : Z) (tileID : vec2) (l : Locals) : Locals :=
  let '(tileUV, coord) := layerCoord i tileID (tileUV l) in
  {| sColor := blend i (sColor l) (spriteDiffuse U coord); tileUV := tileUV |}.

(** [for (int i = 0; i < LAYERS + 1; i++)], with [n] iterations left. *)
Fixpoint layerLoop (n : nat) (i : Z) (tileID : vec2) (l : Locals) : Locals :=
  match n with
  | O => l
  | S k => layerLoop k (i + 1)%Z tileID (layerBody i tileID l)
  end.

Definition initialLocals (tUV : vec2) : Locals :=
  let tileUV := mkVec2 (fract (x2 tUV)) (fract (y2 tUV)) in
  {| sColor := vec4_0;
     tileUV := if FLIPU U then mkVec2 (x2 tileUV) (1 - y2 tileUV) else tileUV |}.

(** [Fragment_Custom_Diffuse]: [diffuseColor] is the [rgb] and
    [alphaFinal] the [a] of the result.  The bump and specular
    accumulators sit behind [#ifdef] and do not feed [sColor]. *)
Definition Fragment_Custom_Diffuse (tUV : vec2) : vec4 :=
  let tileID := mkVec2 (floor (x2 tUV)) (floor (y2 tUV)) in
  sColor (layerLoop (Z.to_nat (LAYERS U + 1)) 0%Z tileID (initialLocals tUV)).

End Fragment.

End Shader.

(** The constants and uniforms as the constructor and the bind callback
    set them from the material; the clock, the size of the source image,
    the source image itself and the unassigned local come from outside. *)
Definition shaderInputs (m : SpriteMapMaterial) (time : Q)
    (spriteMapSize : Glsl.vec2) (spriteDiffuse : Glsl.vec2 -> Glsl.vec4)
    (unassigned : Q) : Shader.Inputs :=
  {| Shader.LAYERS := layerCount (params m);
     Shader.FLIPU := flipU (params m);
     Shader.MAX_ANIMATION_FRAMES := maxAnimationFrames (params m);
     Shader.time := time;
     Shader.spriteCount := inject_Z (spriteCount (params m));
     Shader.spriteMapSize := spriteMapSize;
     Shader.stageSize :=
       Glsl.mkVec2 (inject_Z (stageX (stageSize (params m))))
                   (inject_Z (stageY (stageSize (params m))));
     Shader.spriteDiffuse := spriteDiffuse;
     Shader.frameBuffer := _frameBuffer m;
     Shader.animationBuffer := _animationBuffer m;
     Shader.tileBuffers := _tileBuffers m;
     Shader.unassigned := unassigned |}.

(** ** Vocabulary of the statements *)

(** A sprite whose [frame], [spriteSourceSize] and [sourceSize] objects
    are all present. *)
Definition complete (s : ISpriteJSONSprite) : bool :=
  match frame s, spriteSourceSize s, sourceSize s with
  | Some _, Some _, Some _ => true
  | _, _, _ => false
  end.

(** Flat index of channel [c] of the texel at column [col], row [row] of
    a texture [w] texels wide. *)
Definition channel (w col row c : nat) : nat := ((row * w + col) * 4 + c)%nat.

(** The eleven elements that the second pass assigns for sprite [j]. *)
Definition spriteIndices (n j : nat) : list nat :=
  [channel n j 0 0; channel n j 0 1; channel n j 0 2; channel n j 0 3;
   channel n j 1 0; channel n j 1 1; channel n j 1 3;
   channel n j 2 0; channel n j 2 1; channel n j 2 2; channel n j 2 3].

(** The four channels of a texel, read from the flat data. *)
Definition texelOf (w : nat) (data : list Q) (col row : nat) : list (option Q) :=
  [data !! channel w col row 0; data !! channel w col row 1;
   data !! channel w col row 2; data !! channel w col row 3].

(** What the second pass leaves in column [i] for a complete sprite; the
    element it never assigns is left as the caller states it. *)
Definition spriteColumn (n i : nat) (s : ISpriteJSONSprite) (data : list Q) : Prop :=
  exists f sss ss,
    frame s = Some f /\ spriteSourceSize s = Some sss /\ sourceSize s = Some ss /\
    texelOf n data i 0 = [Some (rx f); Some (ry f); Some (rw f); Some (rh f)] /\
    data !! channel n i 1 0 = Some (rx sss) /\
    data !! channel n i 1 1 = Some (ry sss) /\
    data !! channel n i 1 3 = Some (rh sss) /\
    texelOf n data i 2 =
      [Some (sw ss); Some (sh ss); Some (flag (truthy (rotated s)));
       Some (flag (truthy (trimmed s)))].

(** ** Concrete inputs *)

(** A trimmed 10 x 12 sprite cut from a 16 x 20 source. *)
Definition trimmedSprite : ISpriteJSONSprite :=
  {| frame := Some (mkRect 0 0 10 12);
     spriteSourceSize := Some (mkRect 2 3 10 12);
     sourceSize := Some (mkSize 16 20);
     rotated := Some false;
     trimmed := Some true |}.

(** The same sprite packed rotated. *)
Definition rotatedSprite : ISpriteJSONSprite :=
  {| frame := Some (mkRect 10 0 12 10);
     spriteSourceSize := Some (mkRect 2 3 10 12);
     sourceSize := Some (mkSize 16 20);
     rotated := Some true;
     trimmed := Some true |}.

(** A 2 x 2 stage, two layers, two animation slots; the base tile is the
    rotated sprite. *)
Definition smallArg : Arg.ISpriteMapMaterial :=
  {| Arg.stageSize := mkStageSize 2 2;
     Arg.atlas := [trimmedSprite; rotatedSprite];
     Arg.layerCount := Some 2;
     Arg.maxAnimationFrames := Some 2;
     Arg.baseTile := Some 1%Q;
     Arg.flipU := None |}.

Definition smallParams : Params := defaults smallArg.

(** [m] cells whose first channel is [bt] and whose other channels are 0. *)
Fixpoint cells (m : nat) (bt : Q) : list Q :=
  match m with
  | O => []
  | S k => [bt; 0; 0; 0]%Q ++ cells k bt
  end.

(** [Math.floor] on both fields of a position. *)
Definition floorVector (v : Vector2) : Vector2 :=
  {| x := floor (x v); y := floor (y v) |}.

(** The positions a call of [changeTiles] walks over. *)
Definition positionList (pos : Positions) : list loc :=
  match pos with
  | One pos => [pos]
  | Many pos => pos
  end.

(** The element writes of [changeTiles] for positions holding [vs]. *)
Definition writeCells (_tx : Z) (tile : Q) (buffer : list Q) (vs : list Vector2)
    : list Q :=
  foldl (fun b v => typedSet b (cellIndex _tx (floorVector v)) tile) buffer vs.

(** The object at [l] holds [v], or what flooring has left of [v]. *)
Definition readsAs (h : gmap loc Vector2) (l : loc) (v : Vector2) : Prop :=
  exists u, h !! l = Some u /\ floorVector u = floorVector v.

(** A position inside the stage grid. *)
Definition inGrid (stage : StageSize) (v : Vector2) : Prop :=
  0 <= Qfloor (x v) < stageX stage /\ 0 <= Qfloor (y v) < stageY stage.

(** The material that [constructor smallArg] returns. *)
Definition smallMaterial : SpriteMapMaterial :=
  {| params := smallParams;
     _frameBuffer :=
       CreateRGBATexture
         [0; 0; 10; 12;    10; 0; 12; 10;
          2; 3; 0; 12;     2; 3; 0; 12;
          16; 20; 0; 1;    16; 20; 1; 1;
          0; 0; 0; 0;      0; 0; 0; 0]%Q 2 4;
     _tileBuffers :=
       [CreateRGBATexture [1; 0; 0; 0; 1; 0; 0; 0; 1; 0; 0; 0; 1; 0; 0; 0]%Q 2 2;
        CreateRGBATexture [0; 0; 0; 0; 0; 0; 0; 0; 0; 0; 0; 0; 0; 0; 0; 0]%Q 2 2];
     _animationBuffer :=
       CreateRGBATexture [0; 0; 0; 0; 0; 0; 0; 0; 0; 0; 0; 0; 0; 0; 0; 0]%Q 2 2 |}.

(** Two positions of the caller: one inside the 2 x 2 stage, one whose
    [x] is past its right edge. *)
Definition smallHeap : gmap loc Vector2 :=
  <[1%positive := mkVector2 (3 # 2) (1 # 3)]>
    (<[2%positive := mkVector2 (5 # 2) (1 # 3)]> ∅).

Definition smallStore : Store := {| this := smallMaterial; heap := smallHeap |}.

(** The animation row of sprite [A] holds one transition cell, in the
    slot the scan starts from: next sprite [B], hold fraction [hold],
    speed [speed]; the hold fraction of every other slot is zero. *)
Definition singleTransition (animationBuffer : RawTexture) (A : Z) (B hold speed : Q)
    : Prop :=
  Glsl.x4 (Glsl.texel animationBuffer A 0) = B /\
  (Glsl.y4 (Glsl.texel animationBuffer A 0) == hold)%Q /\
  (Glsl.z4 (Glsl.texel animationBuffer A 0) == speed)%Q /\
  forall r, 1 <= r < height animationBuffer ->
            (Glsl.y4 (Glsl.texel animationBuffer A r) == 0)%Q.

(** [smallMaterial] after [addAnimationToTile(0, 0, 1, 0.5, 1)]. *)
Definition animatedMaterial : SpriteMapMaterial :=
  snd (addAnimationToTile 0 0 1 (1 # 2) 1 smallMaterial).

(** A source image whose colour at a coordinate is the coordinate
    itself, fully opaque. *)
Definition coordinateImage (c : Glsl.vec2) : Glsl.vec4 :=
  Glsl.mkVec4 (Glsl.x2 c) (Glsl.y2 c) 0 1.

Definition animatedInputs (time : Q) : Shader.Inputs :=
  shaderInputs animatedMaterial time (Glsl.mkVec2 32 32) coordinateImage 0.

(** Two 16 x 16 sprites side by side on a 32 x 16 sheet. *)
Definition leftSprite : ISpriteJSONSprite :=
  {| frame := Some (mkRect 0 0 16 16);
     spriteSourceSize := Some (mkRect 0 0 16 16);
     sourceSize := Some (mkSize 16 16);
     rotated := Some false;
     trimmed := Some false |}.

Definition rightSprite : ISpriteJSONSprite :=
  {| frame := Some (mkRect 16 0 16 16);
     spriteSourceSize := Some (mkRect 0 0 16 16);
     sourceSize := Some (mkSize 16 16);
     rotated := Some false;
     trimmed := Some false |}.


(** A stage of one cell with two layers. *)
Definition compositeArg : Arg.ISpriteMapMaterial :=
  {| Arg.stageSize := mkStageSize 1 1;
     Arg.atlas := [leftSprite; rightSprite];
     Arg.layerCount := Some 2;
     Arg.maxAnimationFrames := None;
     Arg.baseTile := None;
     Arg.flipU := None |}.

(** The material that [constructor compositeArg] returns, after
    [changeTiles(1, new Vector2(0, 0), 1)]: the left sprite on layer 0,
    the right sprite on layer 1. *)
Definition compositeMaterial : SpriteMapMaterial :=
  {| params := defaults compositeArg;
     _frameBuffer :=
       CreateRGBATexture
         [0; 0; 16; 16;   16; 0; 16; 16;
          0; 0; 0; 16;    0; 0; 0; 16;
          16; 16; 0; 0;   16; 16; 0; 0;
          0; 0; 0; 0;     0; 0; 0; 0]%Q 2 4;
     _tileBuffers :=
       [CreateRGBATexture [0; 0; 0; 0]%Q 1 1; CreateRGBATexture [1; 0; 0; 0]%Q 1 1];
     _animationBuffer := CreateRGBATexture [0; 0; 0; 0; 0; 0; 0; 0]%Q 2 1 |}.


(** The two layers of [smallMaterial]: the rotated sprite below, the
    unrotated one above. *)
Definition twoLayerInputs : Shader.Inputs :=
  shaderInputs smallMaterial 0 (Glsl.mkVec2 32 32) coordinateImage 0.

Definition vec2_eq (a b : Glsl.vec2) : Prop :=
  (Glsl.x2 a == Glsl.x2 b)%Q /\ (Glsl.y2 a == Glsl.y2 b)%Q.


(** [rotated] of the frame that layer [i] shows at tile [tileID]. *)
Definition layerRotated (U : Shader.Inputs) (i : Z) (tileID : Glsl.vec2) : Q :=
  Glsl.z4 (Glsl.m2 (Shader.getFrameData U
    (Shader.resolveAnimation U (Shader.layerSample U i tileID) + (1 # 2))%Q)).

(** ** Vocabulary of the further properties *)

(** Two atlas entries that differ at most in [spriteSourceSize.w] (and
    in whether a false [rotated] or [trimmed] is written out). *)
Definition sameButTrimWidth (s s' : ISpriteJSONSprite) : Prop :=
  frame s = frame s' /\
  sourceSize s = sourceSize s' /\
  truthy (rotated s) = truthy (rotated s') /\
  truthy (trimmed s) = truthy (trimmed s') /\
  match spriteSourceSize s, spriteSourceSize s' with
  | Some a, Some b => rx a = rx b /\ ry a = ry b /\ rh a = rh b
  | None, None => True
  | _, _ => False
  end.

(** A texture that holds [w] by [h] texels of four floats. *)
Definition holdsTexels (t : RawTexture) (w h : Z) : Prop :=
  width t = w /\ height t = h /\
  exists data, _bufferView t = Some data /\ Z.of_nat (length data) = 4 * w * h.

(** The shape in which the constructor leaves the buffers of a material
    with a stage of non-negative size and at least one animation slot. *)
Definition wellFormed (m : SpriteMapMaterial) : Prop :=
  let p := params m in
  0 <= stageX (stageSize p) /\ 0 <= stageY (stageSize p) /\
  1 <= maxAnimationFrames p /\
  holdsTexels (_frameBuffer m) (spriteCount p) 4 /\
  holdsTexels (_animationBuffer m) (spriteCount p) (maxAnimationFrames p) /\
  length (_tileBuffers m) = Z.to_nat (layerCount p) /\
  Forall (fun t => holdsTexels t (stageX (stageSize p)) (stageY (stageSize p)))
         (_tileBuffers m).

(** [trimmedSprite] with another [spriteSourceSize.w]. *)
Definition trimmedSpriteWider : ISpriteJSONSprite :=
  {| frame := Some (mkRect 0 0 10 12);
     spriteSourceSize := Some (mkRect 2 3 14 12);
     sourceSize := Some (mkSize 16 20);
     rotated := None;
     trimmed := Some true |}.

(** The caller's heap once the positions [p] have been floored. *)
Definition floorAll (p : list loc) (h : gmap loc Vector2) : gmap loc Vector2 :=
  foldl (fun h l => alter floorVector l h) h p.

(** The material with the buffer view of layer [_layer] written in
    place: the texture object stays, its data changes. *)
Definition writtenInPlace (m : SpriteMapMaterial) (_layer : Z) (t : RawTexture)
    (buffer : list Q) : SpriteMapMaterial :=
  setTileBuffer m _layer
    {| _bufferView := Some buffer; width := width t; height := height t |}.

(** What a call of [changeTiles] on layer [_layer] with positions [p]
    may have changed between [s] and [s']: nothing of the material but
    the texture of that layer, and no object but those of [p]. *)
Definition changedAtMost (_layer : Z) (p : list loc) (s s' : Store) : Prop :=
  params (this s') = params (this s) /\
  _frameBuffer (this s') = _frameBuffer (this s) /\
  _animationBuffer (this s') = _animationBuffer (this s) /\
  length (_tileBuffers (this s')) = length (_tileBuffers (this s)) /\
  (forall k, k <> Z.to_nat _layer ->
             _tileBuffers (this s') !! k = _tileBuffers (this s) !! k) /\
  (forall l, l ∉ p -> heap s' !! l = heap s !! l).

(** A store whose second position is not an object. *)
Definition brokenStore : Store :=
  {| this := smallMaterial;
     heap := {[ 1%positive := mkVector2 (3 # 2) (3 # 2) ]} |}.

(** The animation texel of sprite [A], slot [k]. *)
Definition slot (U : Shader.Inputs) (A k : Z) : Glsl.vec4 :=
  Glsl.texel (Shader.animationBuffer U) A k.

(** The slots whose hold fraction the scan compares with [mt]: all but
    the last one, and slot 0 in any case. *)
Definition scanned (U : Shader.Inputs) (k : Z) : Prop :=
  k = 0 \/ (0 <= k /\ k + 2 <= Shader.MAX_ANIMATION_FRAMES U).

(** The animation table is bound with the shape the scan assumes. *)
Definition animationBound (U : Shader.Inputs) (sc : Z) : Prop :=
  1 <= Shader.MAX_ANIMATION_FRAMES U /\
  0 < sc /\
  Shader.spriteCount U = inject_Z sc /\
  width (Shader.animationBuffer U) = sc /\
  height (Shader.animationBuffer U) = Shader.MAX_ANIMATION_FRAMES U.

(** [smallMaterial] with a row of two transitions for sprite 0 in a
    table of three slots. *)
Definition chainedInputs (time : Q) : Shader.Inputs :=
  {| Shader.LAYERS := 2; Shader.FLIPU := false; Shader.MAX_ANIMATION_FRAMES := 3;
     Shader.time := time; Shader.spriteCount := 2;
     Shader.spriteMapSize := Glsl.mkVec2 32 32; Shader.stageSize := Glsl.mkVec2 2 2;
     Shader.spriteDiffuse := coordinateImage;
     Shader.frameBuffer := _frameBuffer smallMaterial;
     Shader.animationBuffer :=
       CreateRGBATexture
         [0; 1 # 4; 1; 0;   0; 0; 0; 0;
          1; 1 # 2; 1; 0;   0; 0; 0; 0;
          1; 3 # 4; 1; 0;   0; 0; 0; 0]%Q 2 3;
     Shader.tileBuffers := _tileBuffers smallMaterial;
     Shader.unassigned := 0 |}.

(** All four components lie in [0, 1]. *)
Definition inUnit (c : Glsl.vec4) : Prop :=
  (0 <= Glsl.x4 c <= 1)%Q /\ (0 <= Glsl.y4 c <= 1)%Q /\
  (0 <= Glsl.z4 c <= 1)%Q /\ (0 <= Glsl.w4 c <= 1)%Q.

(** [v.yx]. *)
Definition swap (v : Glsl.vec2) : Glsl.vec2 := Glsl.mkVec2 (Glsl.y2 v) (Glsl.x2 v).

(** How many of the [n] layers from [i] on show a rotated frame at tile
    [tileID]. *)
Fixpoint rotatedLayers (U : Shader.Inputs) (tileID : Glsl.vec2) (n : nat) (i : Z) : nat :=
  match n with
  | O => O
  | S k =>
      ((if Glsl.eq (layerRotated U i tileID) 1 then 1 else 0) +
       rotatedLayers U tileID k (i + 1))%nat
  end.

(** A source image of one half-transparent colour. *)
Definition flatImage (c : Glsl.vec2) : Glsl.vec4 := Glsl.mkVec4 (1 # 2) (1 # 4) 0 (1 # 2).

Definition flatInputs : Shader.Inputs :=
  shaderInputs smallMaterial 0 (Glsl.mkVec2 32 32) flatImage 0.

(** ** The generated tile lookup *)

(** The statement generated for layer [i] when the engine has no
    [switch] in shaders, and the two pieces generated for it when it
    has; the template literal prints the loop counter in decimal. *)
Definition fallbackStatement (i : nat) : string :=
  "if (" +:+ pretty i +:+ " == i) { frameID = texture2D(tileBuffers[int(" +:+ pretty i
  +:+ "], (tileID + 0.5) / stageSize, 0.).x; }".

Definition caseStatement (i : nat) : string :=
  "case " +:+ pretty i +:+ ": frameID = texture(tileBuffers[" +:+ pretty i
  +:+ "], (tileID + 0.5) / stageSize, 0.).x;".

(** [for (let i = 0; i < layerCount; i++) layerSampleString += ...],
    with [n] iterations left. *)
Fixpoint appendFallback (n i : nat) (layerSampleString : string) : string :=
  match n with
  | O => layerSampleString
  | S k => appendFallback k (S i) (layerSampleString +:+ fallbackStatement i)
  end.

Fixpoint appendCases (n i : nat) (layerSampleString : string) : string :=
  match n with
  | O => layerSampleString
  | S k => appendCases k (S i) ((layerSampleString +:+ caseStatement i) +:+ "break;")
  end.

(** The text spliced into the layer loop of the fragment shader. *)
Definition layerSampleString (supportSwitchCaseInShader : bool) (p : Params) : string :=
  if negb supportSwitchCaseInShader then
    appendFallback (Z.to_nat (layerCount p)) 0 EmptyString
  else
    appendCases (Z.to_nat (layerCount p)) 0 "switch(i) {" +:+ "}".

(** How often the character [c] occurs in [s]. *)
Fixpoint occurrences (c : ascii) (s : string) : nat :=
  match s with
  | EmptyString => O
  | String a s' => ((if Ascii.eqb a c then 1 else 0) + occurrences c s')%nat
  end.

(** * Proofs *)

(** ** The frame table *)

Lemma firstPass_replicate n data :
  firstPass n data = data ++ replicate (16 * n) 0%Q.
Proof.
  revert data. induction n as [|n IH]; intros data.
  - simpl. by rewrite app_nil_r.
  - simpl firstPass. rewrite IH.
    replace (16 * S n)%nat with (16 + 16 * n)%nat by lia.
    rewrite replicate_add, <- !app_assoc. reflexivity.
Qed.

Lemma writeSprite_length n i s data data' :
  writeSprite n i s data = Normal data' -> length data' = length data.
Proof.
  unfold writeSprite, arraySet.
  destruct (frame s), (spriteSourceSize s), (sourceSize s); simpl; try discriminate.
  intros [= <-]. by rewrite !length_insert.
Qed.

Lemma writeSprite_indices_in_range n i :
  (i < n)%nat -> Forall (fun p => (p < 16 * n)%nat) (spriteIndices n i).
Proof.
  intros Hi. unfold spriteIndices, channel.
  repeat (apply Forall_cons; split; [lia|]). apply Forall_nil_2.
Qed.

Lemma writeSprite_lookup_other n i s data data' p :
  writeSprite n i s data = Normal data' ->
  p ∉ spriteIndices n i ->
  data' !! p = data !! p.
Proof.
  unfold writeSprite, arraySet, spriteIndices, channel.
  destruct (frame s), (spriteSourceSize s), (sourceSize s); simpl; try discriminate.
  intros [= <-] Hp. rewrite !not_elem_of_cons in Hp.
  repeat (rewrite list_lookup_insert_ne by lia). reflexivity.
Qed.

Lemma list_lookup_insert_same (l : list Q) (i j : nat) (v : Q) :
  i = j -> (i < length l)%nat -> <[i := v]> l !! j = Some v.
Proof. intros <-. apply list_lookup_insert_eq. Qed.

Ltac lookup_inserts :=
  repeat (rewrite list_lookup_insert_ne by lia);
  try (apply list_lookup_insert_same; [lia | rewrite ?length_insert; lia]);
  try reflexivity.

Lemma writeSprite_own n i s data :
  length data = (16 * n)%nat -> (i < n)%nat -> complete s = true ->
  exists data', writeSprite n i s data = Normal data' /\ spriteColumn n i s data'.
Proof.
  intros Hlen Hi Hc. unfold complete in Hc. unfold writeSprite, spriteColumn, arraySet.
  destruct (frame s) as [f|], (spriteSourceSize s) as [sss|], (sourceSize s) as [ss|];
    try discriminate.
  simpl. eexists; split; [reflexivity|]. exists f, sss, ss.
  unfold texelOf, channel.
  repeat split; repeat f_equal; lookup_inserts.
Qed.

Lemma spriteIndices_disjoint n i j p :
  (i < n)%nat -> (j < n)%nat -> i <> j ->
  p ∈ spriteIndices n i -> p ∉ spriteIndices n j.
Proof.
  unfold spriteIndices, channel. intros Hi Hj Hij.
  unfold not. rewrite !elem_of_cons, !elem_of_nil. lia.
Qed.

Lemma secondPass_length n i rest data data' :
  secondPass n i rest data = Normal data' -> length data' = length data.
Proof.
  revert i data. induction rest as [|s rest IH]; intros i data; simpl.
  - by intros [= <-].
  - destruct (writeSprite n i s data) as [d|] eqn:Hw; simpl; [|discriminate].
    intros H. rewrite (IH _ _ H). eapply writeSprite_length; eauto.
Qed.

(** An element outside the indices of the sprites still to be written is
    not touched by the rest of the pass. *)
Lemma secondPass_lookup_other n i rest data data' p :
  secondPass n i rest data = Normal data' ->
  (forall j, (i <= j < i + length rest)%nat -> p ∉ spriteIndices n j) ->
  data' !! p = data !! p.
Proof.
  revert i data. induction rest as [|s rest IH]; intros i data; simpl.
  - by intros [= <-].
  - destruct (writeSprite n i s data) as [d|] eqn:Hw; simpl; [|discriminate].
    intros H Hp. rewrite (IH _ _ H) by (intros j Hj; apply Hp; lia).
    eapply writeSprite_lookup_other; [eauto|]. apply Hp. lia.
Qed.

Lemma spriteColumn_preserved n i s data data' :
  (forall p, p ∈ spriteIndices n i -> data' !! p = data !! p) ->
  spriteColumn n i s data -> spriteColumn n i s data'.
Proof.
  intros Hsame (f & sss & ss & Hf & Hsss & Hss & H0 & H10 & H11 & H13 & H2).
  exists f, sss, ss. unfold texelOf in *.
  assert (Hin : forall p, p ∈ spriteIndices n i -> data' !! p = data !! p) by exact Hsame.
  unfold spriteIndices in Hin.
  rewrite !Hin by (rewrite !elem_of_cons; tauto). tauto.
Qed.

Lemma secondPass_normal n i rest data :
  length data = (16 * n)%nat -> (i + length rest <= n)%nat ->
  forallb complete rest = true ->
  exists data', secondPass n i rest data = Normal data'.
Proof.
  revert i data. induction rest as [|s rest IH]; intros i data Hlen Hn Hc; simpl.
  - eauto.
  - simpl in Hc, Hn. apply andb_prop in Hc as [Hc0 Hc].
    destruct (writeSprite_own n i s data Hlen ltac:(lia) Hc0) as (d & Hw & _).
    rewrite Hw. simpl. apply IH; [|lia|done].
    rewrite (writeSprite_length _ _ _ _ _ Hw). exact Hlen.
Qed.

Lemma secondPass_column n i rest data k s :
  length data = (16 * n)%nat -> (i + length rest <= n)%nat ->
  forallb complete rest = true -> rest !! k = Some s ->
  exists data', secondPass n i rest data = Normal data' /\
                spriteColumn n (i + k) s data'.
Proof.
  revert i data k. induction rest as [|s0 rest IH]; intros i data k Hlen Hn Hc Hk.
  - discriminate.
  - simpl in Hc, Hn. apply andb_prop in Hc as [Hc0 Hc].
    destruct (writeSprite_own n i s0 data Hlen ltac:(lia) Hc0) as (d & Hw & Hown).
    simpl. rewrite Hw. simpl.
    assert (Hlen' : length d = (16 * n)%nat)
      by (rewrite (writeSprite_length _ _ _ _ _ Hw); exact Hlen).
    destruct k as [|k]; simpl in Hk.
    + injection Hk as <-.
      destruct (secondPass_normal n (S i) rest d Hlen' ltac:(lia) Hc) as (d' & Hd').
      exists d'. split; [exact Hd'|]. rewrite Nat.add_0_r.
      eapply spriteColumn_preserved; [|exact Hown].
      intros p Hp. eapply secondPass_lookup_other; [exact Hd'|].
      intros j Hj. eapply spriteIndices_disjoint; [| |  |exact Hp]; lia.
    + destruct (IH (S i) d k Hlen' ltac:(lia) Hc Hk) as (d' & Hd' & Hcol).
      exists d'. split; [exact Hd'|]. by replace (i + S k)%nat with (S i + k)%nat by lia.
Qed.

Lemma buildFrameBuffer_columns (sprites : list ISpriteJSONSprite) :
  forallb complete sprites = true ->
  exists data,
    _buildFrameBuffer sprites =
      Normal (CreateRGBATexture data (Z.of_nat (length sprites)) 4) /\
    length data = (16 * length sprites)%nat /\
    (forall i s, sprites !! i = Some s -> spriteColumn (length sprites) i s data) /\
    (forall p, (p < 16 * length sprites)%nat ->
               (forall j, (j < length sprites)%nat -> p ∉ spriteIndices (length sprites) j) ->
               data !! p = Some 0%Q).
Proof.
  intros Hc. unfold _buildFrameBuffer. cbv zeta. set (n := length sprites).
  rewrite firstPass_replicate, app_nil_l.
  assert (Hlen : length (replicate (16 * n) 0%Q) = (16 * n)%nat) by apply length_replicate.
  destruct (secondPass_normal n 0 sprites _ Hlen ltac:(lia) Hc) as (data & Hdata).
  exists data. rewrite Hdata. split; [reflexivity|].
  split; [by rewrite (secondPass_length _ _ _ _ _ Hdata)|]. split.
  - intros i s Hi.
    destruct (secondPass_column n 0 sprites _ i s Hlen ltac:(lia) Hc Hi) as (d & Hd & Hcol).
    rewrite Hdata in Hd. by injection Hd as <-.
  - intros p Hp Hfree.
    rewrite (secondPass_lookup_other _ _ _ _ _ p Hdata) by (intros j Hj; apply Hfree; lia).
    by apply lookup_replicate_2.
Qed.

(** C3, as amended: the frame table is [spriteCount] wide and 4 rows
    high; for every sprite [i] row 0 holds [frame.x, frame.y, frame.w,
    frame.h], row 1 holds [spriteSourceSize.x, spriteSourceSize.y] in
    channels 0 and 1, nothing (zero) in channel 2 and
    [spriteSourceSize.h] in channel 3, row 2 holds [sourceSize.w,
    sourceSize.h, rotated ? 1 : 0, trimmed ? 1 : 0], and row 3 is zero. *)
Theorem frame_table_layout (sprites : list ISpriteJSONSprite) (i : nat)
    (s : ISpriteJSONSprite) (f sss : Rect) (ss : Size) :
  forallb complete sprites = true ->
  sprites !! i = Some s ->
  frame s = Some f -> spriteSourceSize s = Some sss -> sourceSize s = Some ss ->
  let n := length sprites in
  exists data,
    _buildFrameBuffer sprites = Normal (CreateRGBATexture data (Z.of_nat n) 4) /\
    length data = (4 * 4 * n)%nat /\
    texelOf n data i 0 = [Some (rx f); Some (ry f); Some (rw f); Some (rh f)] /\
    texelOf n data i 1 = [Some (rx sss); Some (ry sss); Some 0%Q; Some (rh sss)] /\
    texelOf n data i 2 =
      [Some (sw ss); Some (sh ss); Some (flag (truthy (rotated s)));
       Some (flag (truthy (trimmed s)))] /\
    texelOf n data i 3 = [Some 0%Q; Some 0%Q; Some 0%Q; Some 0%Q].
Proof.
  intros Hc Hi Hf Hsss Hss n.
  destruct (buildFrameBuffer_columns sprites Hc) as (data & Hb & Hlen & Hcol & Hzero).
  fold n in Hb, Hlen, Hcol, Hzero.
  assert (Hin : (i < n)%nat) by (apply lookup_lt_Some in Hi; exact Hi).
  exists data. split; [exact Hb|]. split; [lia|].
  destruct (Hcol i s Hi) as (f' & sss' & ss' & Hf' & Hsss' & Hss' & H0 & H10 & H11 & H13 & H2).
  rewrite Hf in Hf'. rewrite Hsss in Hsss'. rewrite Hss in Hss'.
  injection Hf' as <-. injection Hsss' as <-. injection Hss' as <-.
  assert (Hfree : forall c, (c < 4)%nat -> data !! channel n i 3 c = Some 0%Q).
  { intros c Hc4. apply Hzero; [unfold channel; lia|].
    intros j Hj. unfold spriteIndices, channel, not.
    rewrite !elem_of_cons, elem_of_nil. lia. }
  assert (H12 : data !! channel n i 1 2 = Some 0%Q).
  { apply Hzero; [unfold channel; lia|].
    intros j Hj. unfold spriteIndices, channel, not.
    rewrite !elem_of_cons, elem_of_nil. lia. }
  split; [exact H0|]. split.
  - unfold texelOf. by rewrite H10, H11, H12, H13.
  - split; [exact H2|]. unfold texelOf. by rewrite !Hfree by lia.
Qed.

Lemma frame_table_layout_witness :
  exists data,
    _buildFrameBuffer [rotatedSprite; trimmedSprite] =
      Normal (CreateRGBATexture data 2 4) /\
    length data = 32%nat /\
    texelOf 2 data 1 0 = [Some 0%Q; Some 0%Q; Some 10%Q; Some 12%Q] /\
    texelOf 2 data 1 1 = [Some 2%Q; Some 3%Q; Some 0%Q; Some 12%Q] /\
    texelOf 2 data 1 2 = [Some 16%Q; Some 20%Q; Some 0%Q; Some 1%Q] /\
    texelOf 2 data 1 3 = [Some 0%Q; Some 0%Q; Some 0%Q; Some 0%Q].
Proof.
  exact (frame_table_layout [rotatedSprite; trimmedSprite] 1 trimmedSprite
           (mkRect 0 0 10 12) (mkRect 2 3 10 12) (mkSize 16 20)
           eq_refl eq_refl eq_refl eq_refl eq_refl).
Defined.

(** C3, as stated, fails: row 1, channel 3 of a trimmed sprite holds
    [spriteSourceSize.h] (12), not [sourceSize.h] (20). *)
Lemma frame_table_row1_not_sourceSize_h :
  exists data,
    _buildFrameBuffer [trimmedSprite] = Normal (CreateRGBATexture data 1 4) /\
    sourceSize trimmedSprite = Some (mkSize 16 20) /\
    data !! channel 1 0 1 3 = Some 12%Q /\
    ~ (12 == 20)%Q.
Proof.
  eexists. split; [reflexivity|]. split; [reflexivity|]. split; [reflexivity|].
  intros H. discriminate H.
Qed.

(** ** The empty atlas *)

(** C8, as amended: with no sprite the builder does not fault; the table
    it produces is 0 texels wide, 4 rows high and holds no data. *)
Theorem empty_atlas_frame_table (p : Params) :
  spriteCount p = 0 ->
  _buildFrameBuffer (sprites p) = Normal (CreateRGBATexture [] 0 4).
Proof.
  unfold spriteCount. intros H.
  destruct (sprites p) as [|s l]; [reflexivity|]. simpl in H. lia.
Qed.

Lemma empty_atlas_frame_table_witness :
  _buildFrameBuffer [] = Normal (CreateRGBATexture [] 0 4).
Proof.
  apply (empty_atlas_frame_table
           {| stageSize := mkStageSize 2 2; atlas := []; layerCount := 1;
              maxAnimationFrames := 1; baseTile := 0%Q; flipU := false |}).
  reflexivity.
Defined.

(** C8, as stated, fails: the table built for the empty atlas is not the
    1-wide table of sixteen zeros. *)
Lemma empty_atlas_not_one_wide :
  exists t, _buildFrameBuffer [] = Normal t /\ width t = 0 /\
            _bufferView t = Some [] /\
            t <> CreateRGBATexture (replicate 16 0%Q) 1 4.
Proof.
  eexists. split; [reflexivity|]. split; [reflexivity|]. split; [reflexivity|].
  discriminate.
Qed.

(** ** Tile grids *)

Lemma orZero_id n : orZero n = n.
Proof. unfold orZero. destruct (Z.eqb_spec n 0); congruence. Qed.

Lemma cells_add a b bt : cells (a + b) bt = cells a bt ++ cells b bt.
Proof. induction a as [|a IH]; simpl; [reflexivity|]. by rewrite IH. Qed.

Lemma length_cells m bt : length (cells m bt) = (4 * m)%nat.
Proof. induction m as [|m IH]; simpl; [reflexivity|]. rewrite IH. lia. Qed.

Lemma pushCells_cells c bt data : pushCells c bt data = data ++ cells c bt.
Proof.
  revert data. induction c as [|c IH]; intros data; simpl.
  - by rewrite app_nil_r.
  - rewrite IH, <- app_assoc. reflexivity.
Qed.

Lemma pushRows_cells r c bt data : pushRows r c bt data = data ++ cells (r * c) bt.
Proof.
  revert data. induction r as [|r IH]; intros data; simpl.
  - by rewrite app_nil_r.
  - rewrite IH, pushCells_cells, cells_add, app_assoc. reflexivity.
Qed.

Lemma lookup_cells m bt k :
  (k < m)%nat ->
  cells m bt !! (k * 4)%nat = Some bt /\
  cells m bt !! (k * 4 + 1)%nat = Some 0%Q /\
  cells m bt !! (k * 4 + 2)%nat = Some 0%Q /\
  cells m bt !! (k * 4 + 3)%nat = Some 0%Q.
Proof.
  revert k. induction m as [|m IH]; intros k Hk; [lia|].
  destruct k as [|k]; [by repeat split|].
  destruct (IH k ltac:(lia)) as (H0 & H1 & H2 & H3).
  replace (S k * 4)%nat with (4 + k * 4)%nat by lia.
  simpl. by rewrite H0, H1, H2, H3.
Qed.

(** C9: without a fill buffer the grid of a layer is [stageWidth] by
    [stageHeight] cells, and the sprite-index channel of every cell is
    [baseTile] on layer 0 and 0 on any other layer (the three remaining
    channels are 0). *)
Theorem createTileBuffer_default_fill (p : Params) (_layer : Z) (col row : nat) :
  let w := stageX (stageSize p) in
  let h := stageY (stageSize p) in
  (col < Z.to_nat w)%nat -> (row < Z.to_nat h)%nat ->
  exists data,
    _createTileBuffer p None _layer = CreateRGBATexture data w h /\
    length data = (4 * (Z.to_nat w * Z.to_nat h))%nat /\
    texelOf (Z.to_nat w) data col row =
      [Some (if _layer =? 0 then baseTile p else 0%Q); Some 0%Q; Some 0%Q; Some 0%Q].
Proof.
  intros w h Hcol Hrow. unfold _createTileBuffer. cbv zeta.
  fold w h. rewrite !orZero_id, pushRows_cells, app_nil_l.
  eexists. split; [reflexivity|]. split; [rewrite length_cells; lia|].
  set (bt := if negb (_layer =? 0) then 0%Q else baseTile p).
  assert (Hbt : bt = if _layer =? 0 then baseTile p else 0%Q)
    by (unfold bt; destruct (_layer =? 0); reflexivity).
  rewrite <- Hbt.
  destruct (lookup_cells (Z.to_nat h * Z.to_nat w) bt (row * Z.to_nat w + col) ltac:(nia))
    as (H0 & H1 & H2 & H3).
  unfold texelOf, channel. rewrite Nat.add_0_r. by rewrite H0, H1, H2, H3.
Qed.

Lemma createTileBuffer_default_fill_witness :
  exists data,
    _createTileBuffer smallParams None 1 = CreateRGBATexture data 2 2 /\
    length data = 16%nat /\
    texelOf 2 data 1 1 = [Some 0%Q; Some 0%Q; Some 0%Q; Some 0%Q].
Proof.
  apply (createTileBuffer_default_fill smallParams 1 1 1); simpl; lia.
Defined.

Example createTileBuffer_layer0 :
  _createTileBuffer smallParams None 0 =
  CreateRGBATexture [1; 0; 0; 0; 1; 0; 0; 0; 1; 0; 0; 0; 1; 0; 0; 0]%Q 2 2.
Proof. reflexivity. Qed.

(** ** [changeTiles] *)

Example smallMaterial_constructed : constructor smallArg = Normal smallMaterial.
Proof. reflexivity. Qed.

Lemma floor_floor q : floor (floor q) = floor q.
Proof. unfold floor. by rewrite Qfloor_Z. Qed.

Lemma floorVector_idemp v : floorVector (floorVector v) = floorVector v.
Proof. unfold floorVector. simpl. by rewrite !floor_floor. Qed.

Lemma tileBufferAt_Some m _layer t :
  tileBufferAt m _layer = Some t ->
  0 <= _layer /\ _tileBuffers m !! Z.to_nat _layer = Some t.
Proof. unfold tileBufferAt. case_decide; [tauto | discriminate]. Qed.


Lemma readsAs_alter h a l v :
  readsAs h l v -> readsAs (alter floorVector a h) l v.
Proof.
  intros (u & Hu & Hf). unfold readsAs.
  destruct (decide (a = l)) as [->|Hne].
  - exists (floorVector u). rewrite lookup_alter_eq, Hu. simpl.
    by rewrite floorVector_idemp.
  - exists u. by rewrite lookup_alter_ne.
Qed.

Lemma insert_floor_alter (h : gmap loc Vector2) l u :
  h !! l = Some u ->
  <[l := {| x := floor (x u); y := floor (y u) |}]>
    (<[l := {| x := floor (x u); y := y u |}]> h) = alter floorVector l h.
Proof.
  intros Hu. apply map_eq. intros k.
  destruct (decide (l = k)) as [->|Hne].
  - by rewrite lookup_insert_eq, lookup_alter_eq, Hu.
  - by rewrite !lookup_insert_ne, lookup_alter_ne.
Qed.

(** The loop of [changeTiles] on an existing layer: it does not throw,
    floors every position in place and stores the tile at the flat index
    of each of them. *)
Lemma changeTilesLoop_spec _layer _tx tile p :
  forall s vs t buffer,
    Forall2 (readsAs (heap s)) p vs ->
    tileBufferAt (this s) _layer = Some t ->
    _bufferView t = Some buffer ->
    exists s',
      changeTilesLoop _layer _tx tile p s = (Normal tt, s') /\
      params (this s') = params (this s) /\
      tileBufferAt (this s') _layer =
        Some {| _bufferView := Some (writeCells _tx tile buffer vs);
                width := width t; height := height t |} /\
      heap s' = foldl (fun h l => alter floorVector l h) (heap s) p.
Proof.
  induction p as [|l p IH]; intros s vs t buffer Hvs Ht Hb.
  - apply Forall2_nil_inv_l in Hvs as ->. exists s. simpl.
    repeat split; try reflexivity. rewrite Ht. destruct t; simpl in *. by rewrite Hb.
  - apply Forall2_cons_inv_l in Hvs as (v & vs' & (u & Hu & Hf) & Hvs & ->).
    destruct (tileBufferAt_Some _ _ _ Ht) as [Hl Hlk].
    simpl. unfold bind at 1, readVector, bind at 1, get. rewrite Hu. simpl.
    unfold bind at 1, writeVector, bind at 1, get, put. simpl.
    unfold bind at 1, bind at 1. simpl.
    unfold bind at 1, storeElement, bind at 1, get, put. simpl.
    rewrite (insert_floor_alter _ _ _ Hu).
    match goal with |- context [changeTilesLoop _ _ _ _ ?s1] => set (s1' := s1) end.
    destruct (IH s1' vs'
                {| _bufferView := Some (typedSet buffer (cellIndex _tx (floorVector u)) tile);
                   width := width t; height := height t |}
                (typedSet buffer (cellIndex _tx (floorVector u)) tile))
      as (s' & Hrun & Hp & Hbuf & Hheap).
    + subst s1'. simpl. eapply Forall2_impl; [exact Hvs|].
      intros l' v' Hr. by apply readsAs_alter.
    + subst s1'. unfold tileBufferAt. simpl. rewrite decide_True by lia.
      rewrite list_lookup_alter_eq, Hlk. simpl. by rewrite Hb.
    + reflexivity.
    + exists s'. split; [exact Hrun|]. split; [by rewrite Hp|]. split.
      * rewrite Hbuf. simpl. unfold writeCells. simpl. by rewrite Hf.
      * rewrite Hheap. reflexivity.
Qed.

Lemma changeTiles_spec _layer pos tile s vs t buffer :
  Forall2 (readsAs (heap s)) (positionList pos) vs ->
  tileBufferAt (this s) _layer = Some t ->
  _bufferView t = Some buffer ->
  let _tx := orZero (stageX (stageSize (params (this s)))) in
  let _ty := orZero (stageY (stageSize (params (this s)))) in
  exists s',
    changeTiles _layer pos tile s = (Normal tt, s') /\
    params (this s') = params (this s) /\
    tileBufferAt (this s') _layer =
      Some (CreateRGBATexture (writeCells _tx tile buffer vs) _tx _ty) /\
    heap s' = foldl (fun h l => alter floorVector l h) (heap s) (positionList pos).
Proof.
  intros Hvs Ht Hb _tx _ty.
  destruct (changeTilesLoop_spec _layer _tx tile (positionList pos) s vs t buffer Hvs Ht Hb)
    as (s1 & Hrun & Hp & Hbuf & Hheap).
  unfold changeTiles, bind at 1, readBuffer, bind at 1, get. rewrite Ht. simpl. rewrite Hb.
  unfold bind at 1, get. unfold bind at 1. fold _tx.
  change (match pos with One pos0 => [pos0] | Many pos0 => pos0 end) with (positionList pos).
  rewrite Hrun. unfold bind at 1, bind at 1, get. rewrite Hbuf. simpl.
  unfold bind at 1, get, put. simpl.
  eexists. split; [reflexivity|]. simpl. split; [exact Hp|]. split; [|exact Hheap].
  destruct (tileBufferAt_Some _ _ _ Hbuf) as [Hl Hlk].
  unfold tileBufferAt. simpl. rewrite decide_True by lia.
  rewrite list_lookup_insert_eq by (eapply lookup_lt_Some; exact Hlk).
  unfold _createTileBuffer. rewrite Hp. reflexivity.
Qed.

Lemma floorAll_lookup_other (p : list loc) (h : gmap loc Vector2) l :
  l ∉ p -> foldl (fun h l => alter floorVector l h) h p !! l = h !! l.
Proof.
  revert h. induction p as [|a p IH]; intros h Hl; simpl; [reflexivity|].
  apply not_elem_of_cons in Hl as [Hne Hl].
  rewrite IH by exact Hl. by rewrite lookup_alter_ne.
Qed.

Lemma floorAll_lookup (p : list loc) (h : gmap loc Vector2) l :
  l ∈ p ->
  foldl (fun h l => alter floorVector l h) h p !! l = floorVector <$> h !! l.
Proof.
  revert h. induction p as [|a p IH]; intros h Hl; simpl.
  - by apply elem_of_nil in Hl.
  - destruct (decide (l ∈ p)) as [Hin|Hnin].
    + rewrite IH by exact Hin. destruct (decide (a = l)) as [->|Hne].
      * rewrite lookup_alter_eq. destruct (h !! l); simpl; [|reflexivity].
        by rewrite floorVector_idemp.
      * by rewrite lookup_alter_ne.
    + apply elem_of_cons in Hl as [->|Hl]; [|contradiction].
      rewrite floorAll_lookup_other by exact Hnin. by rewrite lookup_alter_eq.
Qed.

Lemma positions_read (h : gmap loc Vector2) (p : list loc) :
  (forall l, l ∈ p -> is_Some (h !! l)) ->
  exists vs, Forall2 (fun l v => h !! l = Some v) p vs.
Proof.
  induction p as [|a p IH]; intros Hp.
  - exists []. constructor.
  - destruct (Hp a ltac:(left)) as [v Hv].
    destruct IH as [vs Hvs]; [intros l Hl; apply Hp; by right|].
    exists (v :: vs). by constructor.
Qed.

Lemma reads_readsAs (h : gmap loc Vector2) p vs :
  Forall2 (fun l v => h !! l = Some v) p vs -> Forall2 (readsAs h) p vs.
Proof. intros H. eapply Forall2_impl; [exact H|]. intros l v Hv. by exists v. Qed.

(** C10, as amended: a call of [changeTiles] that reaches the update
    loop (the layer exists and its texture has a buffer view) overwrites
    the [x] and [y] of every [Vector2] it was given with their
    [Math.floor]; the objects are the caller's own, so the caller sees
    the change.  Other objects are left alone. *)
Theorem changeTiles_floors_positions (s : Store) (_layer : Z) (pos : Positions)
    (tile : Q) (t : RawTexture) (buffer : list Q) :
  tileBufferAt (this s) _layer = Some t ->
  _bufferView t = Some buffer ->
  (forall l, l ∈ positionList pos -> is_Some (heap s !! l)) ->
  exists s',
    changeTiles _layer pos tile s = (Normal tt, s') /\
    (forall l v, l ∈ positionList pos -> heap s !! l = Some v ->
       heap s' !! l = Some {| x := floor (x v); y := floor (y v) |}) /\
    (forall l, l ∉ positionList pos -> heap s' !! l = heap s !! l).
Proof.
  intros Ht Hb Hlive.
  destruct (positions_read _ _ Hlive) as [vs Hvs].
  destruct (changeTiles_spec _layer pos tile s vs t buffer (reads_readsAs _ _ _ Hvs) Ht Hb)
    as (s' & Hrun & _ & _ & Hheap).
  exists s'. split; [exact Hrun|]. rewrite Hheap. split.
  - intros l v Hl Hv. rewrite floorAll_lookup by exact Hl. by rewrite Hv.
  - intros l Hl. by apply floorAll_lookup_other.
Qed.

Lemma changeTiles_floors_positions_witness :
  exists s',
    changeTiles 0 (Many [1%positive; 2%positive]) 7 smallStore = (Normal tt, s') /\
    (forall l v, l ∈ [1%positive; 2%positive] -> smallHeap !! l = Some v ->
       heap s' !! l = Some {| x := floor (x v); y := floor (y v) |}) /\
    (forall l, l ∉ [1%positive; 2%positive] -> heap s' !! l = smallHeap !! l).
Proof.
  apply (changeTiles_floors_positions smallStore 0 (Many [1%positive; 2%positive]) 7
           (CreateRGBATexture [1; 0; 0; 0; 1; 0; 0; 0; 1; 0; 0; 0; 1; 0; 0; 0]%Q 2 2)
           [1; 0; 0; 0; 1; 0; 0; 0; 1; 0; 0; 0; 1; 0; 0; 0]%Q).
  - reflexivity.
  - reflexivity.
  - intros l Hl. simpl in Hl. rewrite !elem_of_cons, elem_of_nil in Hl.
    destruct Hl as [->|[->|[]]]; eexists; reflexivity.
Defined.

Example changeTiles_floors_example :
  heap (snd (changeTiles 0 (One 1%positive) 7 smallStore)) !! 1%positive =
  Some (mkVector2 1 0).
Proof. reflexivity. Qed.

Lemma typedSet_length buffer id v : length (typedSet buffer id v) = length buffer.
Proof. unfold typedSet. case_decide; [apply length_insert | reflexivity]. Qed.

Lemma typedSet_outside buffer id v :
  ~ (0 <= id < Z.of_nat (length buffer)) -> typedSet buffer id v = buffer.
Proof. intros H. unfold typedSet. by rewrite decide_False. Qed.

Lemma typedSet_lookup buffer id v :
  0 <= id < Z.of_nat (length buffer) ->
  typedSet buffer id v !! Z.to_nat id = Some (fround v).
Proof.
  intros H. unfold typedSet. rewrite decide_True by exact H.
  apply list_lookup_insert_eq. lia.
Qed.

Lemma typedSet_lookup_ne buffer id v k :
  k <> Z.to_nat id -> typedSet buffer id v !! k = buffer !! k.
Proof.
  intros H. unfold typedSet. case_decide; [|reflexivity].
  by apply list_lookup_insert_ne.
Qed.

Lemma three_stores (buffer : list Q) (id : Z) (a b c : Q) :
  0 <= id -> id + 2 < Z.of_nat (length buffer) ->
  let buffer' := typedSet (typedSet (typedSet buffer id a) (id + 1) b) (id + 2) c in
  buffer' !! Z.to_nat id = Some (fround a) /\
  buffer' !! Z.to_nat (id + 1) = Some (fround b) /\
  buffer' !! Z.to_nat (id + 2) = Some (fround c) /\
  forall k, (k < Z.to_nat id \/ Z.to_nat (id + 2) < k)%nat -> buffer' !! k = buffer !! k.
Proof.
  intros H0 H2 buffer'. unfold buffer'. split; [|split; [|split]].
  - rewrite !typedSet_lookup_ne by lia. apply typedSet_lookup. lia.
  - rewrite typedSet_lookup_ne by lia. apply typedSet_lookup.
    rewrite typedSet_length. lia.
  - apply typedSet_lookup. rewrite !typedSet_length. lia.
  - intros k Hk. by rewrite !typedSet_lookup_ne by lia.
Qed.

Lemma writeCells_length _tx tile vs buffer :
  length (writeCells _tx tile buffer vs) = length buffer.
Proof.
  revert buffer. induction vs as [|v vs IH]; intros buffer; [reflexivity|].
  unfold writeCells in *. simpl. by rewrite IH, typedSet_length.
Qed.

Lemma writeCells_outside _tx tile vs buffer :
  Forall (fun v => ~ (0 <= cellIndex _tx (floorVector v) < Z.of_nat (length buffer))) vs ->
  writeCells _tx tile buffer vs = buffer.
Proof.
  induction 1 as [|v vs Hv _ IH]; [reflexivity|].
  unfold writeCells in *. simpl. by rewrite typedSet_outside.
Qed.

(** C5, as amended: [changeTiles] checks no position against the grid
    and reports no error.  On an existing layer with a buffer view it
    returns normally for any positions; the new grid is the old one with
    the tile stored at flat index [4 * floor x + 4 * stageWidth * floor y]
    for each position whose index lies inside the buffer, the other
    stores being ignored; it has the size of the old one, and it equals
    the old one when every index lies outside the buffer. *)
Theorem changeTiles_unchecked (s : Store) (_layer : Z) (pos : Positions) (tile : Q)
    (t : RawTexture) (buffer : list Q) (vs : list Vector2) :
  tileBufferAt (this s) _layer = Some t ->
  _bufferView t = Some buffer ->
  Forall2 (fun l v => heap s !! l = Some v) (positionList pos) vs ->
  let _tx := stageX (stageSize (params (this s))) in
  let _ty := stageY (stageSize (params (this s))) in
  exists s',
    changeTiles _layer pos tile s = (Normal tt, s') /\
    tileBufferAt (this s') _layer =
      Some (CreateRGBATexture (writeCells _tx tile buffer vs) _tx _ty) /\
    length (writeCells _tx tile buffer vs) = length buffer /\
    (Forall (fun v => ~ (0 <= cellIndex _tx (floorVector v) < Z.of_nat (length buffer))) vs ->
     writeCells _tx tile buffer vs = buffer).
Proof.
  intros Ht Hb Hvs _tx _ty.
  destruct (changeTiles_spec _layer pos tile s vs t buffer (reads_readsAs _ _ _ Hvs) Ht Hb)
    as (s' & Hrun & _ & Hbuf & _).
  rewrite !orZero_id in Hbuf. fold _tx _ty in Hbuf.
  exists s'. split; [exact Hrun|]. split; [exact Hbuf|].
  split; [apply writeCells_length | apply writeCells_outside].
Qed.

Lemma changeTiles_unchecked_witness :
  exists s',
    changeTiles 0 (Many [1%positive; 2%positive]) 7 smallStore = (Normal tt, s') /\
    tileBufferAt (this s') 0 =
      Some (CreateRGBATexture
              (writeCells 2 7 [1; 0; 0; 0; 1; 0; 0; 0; 1; 0; 0; 0; 1; 0; 0; 0]%Q
                 [mkVector2 (3 # 2) (1 # 3); mkVector2 (5 # 2) (1 # 3)]) 2 2) /\
    length (writeCells 2 7 [1; 0; 0; 0; 1; 0; 0; 0; 1; 0; 0; 0; 1; 0; 0; 0]%Q
              [mkVector2 (3 # 2) (1 # 3); mkVector2 (5 # 2) (1 # 3)]) = 16%nat /\
    (Forall (fun v => ~ (0 <= cellIndex 2 (floorVector v) < 16))
            [mkVector2 (3 # 2) (1 # 3); mkVector2 (5 # 2) (1 # 3)] ->
     writeCells 2 7 [1; 0; 0; 0; 1; 0; 0; 0; 1; 0; 0; 0; 1; 0; 0; 0]%Q
       [mkVector2 (3 # 2) (1 # 3); mkVector2 (5 # 2) (1 # 3)] =
     [1; 0; 0; 0; 1; 0; 0; 0; 1; 0; 0; 0; 1; 0; 0; 0]%Q).
Proof.
  apply (changeTiles_unchecked smallStore 0 (Many [1%positive; 2%positive]) 7
           (CreateRGBATexture [1; 0; 0; 0; 1; 0; 0; 0; 1; 0; 0; 0; 1; 0; 0; 0]%Q 2 2)
           [1; 0; 0; 0; 1; 0; 0; 0; 1; 0; 0; 0; 1; 0; 0; 0]%Q
           [mkVector2 (3 # 2) (1 # 3); mkVector2 (5 # 2) (1 # 3)]).
  - reflexivity.
  - reflexivity.
  - repeat constructor.
Defined.

(** C5, as stated, fails: the position (5/2, 1/3) is outside the 2 x 2
    stage, yet the call returns normally and the grid changes: the first
    channel of cell (0, 1) now holds the tile. *)
Lemma changeTiles_out_of_grid_writes :
  smallHeap !! 2%positive = Some (mkVector2 (5 # 2) (1 # 3)) /\
  ~ inGrid (stageSize smallParams) (mkVector2 (5 # 2) (1 # 3)) /\
  tileBufferAt smallMaterial 0 =
    Some (CreateRGBATexture [1; 0; 0; 0; 1; 0; 0; 0; 1; 0; 0; 0; 1; 0; 0; 0]%Q 2 2) /\
  exists s',
    changeTiles 0 (One 2%positive) 7 smallStore = (Normal tt, s') /\
    tileBufferAt (this s') 0 =
      Some (CreateRGBATexture [1; 0; 0; 0; 1; 0; 0; 0; 7; 0; 0; 0; 1; 0; 0; 0]%Q 2 2).
Proof.
  split; [reflexivity|]. split.
  - intros [[_ H] _]. vm_compute in H. discriminate H.
  - split; [reflexivity|].
    exists (snd (changeTiles 0 (One 2%positive) 7 smallStore)).
    split; vm_compute; reflexivity.
Qed.

(** A position whose flat index is outside the buffer is dropped
    without a report. *)
Example changeTiles_far_position_dropped :
  let s := {| this := smallMaterial;
              heap := {[ 1%positive := mkVector2 0 5 ]} |} in
  fst (changeTiles 0 (One 1%positive) 7 s) = Normal tt /\
  tileBufferAt (this (snd (changeTiles 0 (One 1%positive) 7 s))) 0 =
  tileBufferAt smallMaterial 0.
Proof. split; reflexivity. Qed.

(** C10, as stated for every call, fails at the guards in front of the
    loop: when the texture of the layer has no buffer view the call
    returns at once, and when the layer does not exist it throws; in
    both cases the position keeps its fractional coordinates. *)
Lemma changeTiles_guard_skips_flooring :
  let unbacked :=
    {| this := setTileBuffer smallMaterial 0
                 {| _bufferView := None; width := 2; height := 2 |};
       heap := smallHeap |} in
  changeTiles 0 (One 1%positive) 7 unbacked = (Normal tt, unbacked) /\
  changeTiles 5 (One 1%positive) 7 smallStore = (Throw TypeError, smallStore) /\
  smallHeap !! 1%positive = Some (mkVector2 (3 # 2) (1 # 3)) /\
  mkVector2 (3 # 2) (1 # 3) <> mkVector2 (floor (3 # 2)) (floor (1 # 3)).
Proof.
  split; [reflexivity|]. split; [reflexivity|]. split; [reflexivity|].
  discriminate.
Qed.
(** ** The animation table as allocated *)

Lemma pushSlots_replicate s data : pushSlots s data = data ++ replicate (4 * s) 0%Q.
Proof.
  revert data. induction s as [|s IH]; intros data; simpl.
  - by rewrite app_nil_r.
  - rewrite IH, <- app_assoc. replace (s + S (s + S (s + S (s + 0))))%nat
      with (3 + 4 * s)%nat by lia. reflexivity.
Qed.

Lemma pushAnimationRows_replicate n s data :
  pushAnimationRows n s data = data ++ replicate (n * (4 * S s)) 0%Q.
Proof.
  revert data. induction n as [|n IH]; intros data.
  - simpl. by rewrite app_nil_r.
  - cbn [pushAnimationRows]. rewrite IH, pushSlots_replicate, <- !app_assoc.
    f_equal. change [0%Q; 0%Q; 0%Q; 0%Q] with (replicate 4 0%Q).
    rewrite <- !replicate_add. f_equal. lia.
Qed.

Lemma createTileAnimationBuffer_zeros (p : Params) :
  _createTileAnimationBuffer p None =
  CreateRGBATexture
    (replicate (Z.to_nat (4 * spriteCount p * Z.max 1 (maxAnimationFrames p))) 0%Q)
    (spriteCount p) (maxAnimationFrames p).
Proof.
  unfold _createTileAnimationBuffer.
  rewrite pushAnimationRows_replicate, app_nil_l. do 3 f_equal.
  unfold spriteCount. nia.
Qed.

Lemma constructor_inv (a : Arg.ISpriteMapMaterial) (m : SpriteMapMaterial) :
  constructor a = Normal m ->
  params m = defaults a /\
  _buildFrameBuffer (Arg.atlas a) = Normal (_frameBuffer m) /\
  _animationBuffer m = _createTileAnimationBuffer (params m) None /\
  _tileBuffers m = pushTileBuffers (params m) (Z.to_nat (layerCount (params m))) 0 [].
Proof.
  unfold constructor. cbv zeta. unfold sprites. simpl atlas.
  destruct (_buildFrameBuffer (Arg.atlas a)) as [fb|]; simpl; [|discriminate].
  intros [= <-]. auto.
Qed.

Lemma typedSet_lookup_cases buffer id v k :
  typedSet buffer id v !! k =
  if decide (0 <= id < Z.of_nat (length buffer) /\ k = Z.to_nat id) then Some (fround v)
  else buffer !! k.
Proof.
  unfold typedSet. case_decide as Hr.
  - case_decide as Hk.
    + destruct Hk as [_ ->]. apply list_lookup_insert_eq. lia.
    + apply list_lookup_insert_ne. intros <-. apply Hk. auto.
  - rewrite decide_False; [reflexivity|]. tauto.
Qed.

(** ** Texels inside a texture *)

Lemma clamp_inside a lo hi : lo <= a <= hi -> Glsl.clamp a lo hi = a.
Proof. unfold Glsl.clamp. lia. Qed.

Lemma texel_inside (t : RawTexture) (col row : Z) :
  0 <= col < width t -> 0 <= row < height t ->
  Glsl.texel t col row =
  let data := nullish (_bufferView t) [] in
  let at_ (k : Z) := nullish (data !! Z.to_nat ((row * width t + col) * 4 + k)) 0%Q in
  Glsl.mkVec4 (at_ 0) (at_ 1) (at_ 2) (at_ 3).
Proof.
  intros Hc Hr. unfold Glsl.texel. cbv zeta. rewrite !clamp_inside by lia. reflexivity.
Qed.

Lemma texel_zeros (n : nat) (w h col row : Z) :
  Glsl.texel (CreateRGBATexture (replicate n 0%Q) w h) col row = Glsl.vec4_0.
Proof.
  unfold Glsl.texel. cbv zeta. cbn [_bufferView CreateRGBATexture nullish].
  assert (H0 : forall k, nullish (replicate n 0%Q !! k) 0%Q = 0%Q).
  { intros k. destruct (replicate n 0%Q !! k) as [q|] eqn:Hk; [|reflexivity].
    apply lookup_replicate in Hk as [-> _]. reflexivity. }
  by rewrite !H0.
Qed.


Lemma nearestEven_whole (k : Q) (w : Z) :
  (k == inject_Z w)%Q -> nearestEven (Qnum k) (Qden k) = w.
Proof.
  destruct k as [n d]. unfold Qeq, nearestEven. cbn [Qnum Qden inject_Z].
  intros H. assert (Hn : n = w * Z.pos d) by lia. subst n.
  rewrite Z.div_mul, Z.mod_mul by lia. reflexivity.
Qed.

Lemma pow2_spec (e : Z) :
  (pow2 e * inject_Z (2 ^ Z.max 0 (- e)) == inject_Z (2 ^ Z.max 0 e))%Q.
Proof.
  unfold pow2. destruct (Z.leb_spec 0 e) as [He|He].
  - replace (Z.max 0 (- e)) with 0 by lia. replace (Z.max 0 e) with e by lia.
    change (inject_Z (2 ^ 0)) with 1%Q. ring.
  - replace (Z.max 0 (- e)) with (- e) by lia. replace (Z.max 0 e) with 0 by lia.
    assert (Hp : 0 < 2 ^ (- e)) by (apply Z.pow_pos_nonneg; lia).
    unfold Qeq, Qmult, inject_Z. cbn [Qnum Qden].
    rewrite Pos2Z.inj_mul, Z2Pos.id by exact Hp. change (2 ^ 0) with 1. lia.
Qed.

Lemma exponent_whole (n : Z) : 0 < n -> exponent n 1 = Z.log2 n.
Proof.
  intros Hn. unfold exponent. change (Z.log2 (Z.pos 1)) with 0. rewrite Z.sub_0_r.
  pose proof (Z.log2_nonneg n) as H0. pose proof (Z.log2_spec n Hn) as [Hlo _].
  rewrite (proj2 (Z.leb_le 0 (Z.log2 n)) H0).
  rewrite (proj2 (Z.leb_le _ _)) by lia. reflexivity.
Qed.

(** Whole numbers up to [2 ^ 24] are float32 values. *)
Lemma fround_whole (z : Z) : Z.abs z <= 2 ^ 24 -> fround (inject_Z z) = inject_Z z.
Proof.
  intros Hz. unfold fround. cbn [Qnum Qden inject_Z].
  destruct (Z.eqb_spec z 0) as [->|Hne]; [reflexivity|].
  rewrite exponent_whole by lia.
  set (e := Z.log2 (Z.abs z)).
  assert (He : 0 <= e <= 24).
  { split; [apply Z.log2_nonneg|]. unfold e.
    change 24 with (Z.log2 (2 ^ 24)). apply Z.log2_le_mono. exact Hz. }
  replace (Z.max e (-126)) with e by lia.
  pose proof (Z.log2_spec (Z.abs z) ltac:(lia)) as [Hlo Hhi]. fold e in Hlo, Hhi.
  pose proof (pow2_spec (e - 23)) as Hp.
  set (ulp := pow2 (e - 23)) in *.
  set (a := 2 ^ Z.max 0 (- (e - 23))) in *. set (b := 2 ^ Z.max 0 (e - 23)) in *.
  assert (Ha : 0 < a) by (apply Z.pow_pos_nonneg; lia).
  assert (Hb : 0 < b) by (apply Z.pow_pos_nonneg; lia).
  assert (Hulp : (ulp == inject_Z b / inject_Z a)%Q).
  { rewrite <- Hp. field. intros H. unfold Qeq in H. simpl in H. lia. }
  (* the number of steps is whole *)
  assert (Hw : exists w, Z.abs z * a = w * b).
  { destruct (Z.le_gt_cases e 23) as [Hle|Hgt].
    - exists (Z.abs z * a). unfold b. replace (Z.max 0 (e - 23)) with 0 by lia.
      change (2 ^ 0) with 1. lia.
    - assert (He24 : e = 24) by lia.
      assert (Hlo' : 2 ^ 24 <= Z.abs z) by (rewrite <- He24; exact Hlo).
      assert (Habs : Z.abs z = 2 ^ 24) by lia.
      exists (2 ^ 23). unfold a, b. rewrite He24, Habs. reflexivity. }
  destruct Hw as [w Hw].
  assert (Hk : (Qabs (inject_Z z) / ulp == inject_Z w)%Q).
  { rewrite Hulp. change (Qabs (inject_Z z)) with (inject_Z (Z.abs z)).
    assert (Hq : (inject_Z (Z.abs z) * inject_Z a == inject_Z w * inject_Z b)%Q)
      by (rewrite <- !inject_Z_mult, Hw; reflexivity).
    assert (Hb' : ~ (inject_Z b == 0)%Q) by (intros H; unfold Qeq in H; simpl in H; lia).
    assert (Ha' : ~ (inject_Z a == 0)%Q) by (intros H; unfold Qeq in H; simpl in H; lia).
    field_simplify_eq; [|split; assumption]. rewrite Hq. ring. }
  rewrite (nearestEven_whole _ w Hk).
  transitivity (Qred (inject_Z z)).
  - apply Qred_complete. rewrite Hulp, inject_Z_mult.
    assert (Hb' : ~ (inject_Z a == 0)%Q) by (intros H; unfold Qeq in H; simpl in H; lia).
    assert (Hq : (inject_Z w * inject_Z b == inject_Z (Z.abs z) * inject_Z a)%Q)
      by (rewrite <- !inject_Z_mult, Hw; reflexivity).
    field_simplify_eq; [|assumption].
    rewrite <- Qmult_assoc, Hq.
    assert (Hs : (inject_Z z == inject_Z (Z.sgn z) * inject_Z (Z.abs z))%Q).
    { rewrite <- inject_Z_mult. replace (Z.sgn z * Z.abs z) with z by lia. reflexivity. }
    rewrite Hs. ring.
  - apply Qcanon.Qred_identity. cbn [Qnum Qden inject_Z]. apply Z.gcd_1_r.
Qed.

(** What single precision makes of 0.3 and of 1e-46, the first whole
    number it cannot hold, and a number it holds as it is. *)
Example fround_values :
  fround (3 # 10) = 5033165 # 16777216 /\
  fround (1 # 10 ^ 46) = 0%Q /\
  fround 16777217 = 16777216%Q /\
  fround (1 # 2) = 1 # 2.
Proof. repeat split; vm_compute; reflexivity. Qed.

(** ** [addAnimationToTile] *)

(** C6, as amended: [addAnimationToTile] checks neither the frame slot
    nor the sprite index and reports no error for any arguments.
    Without a buffer view it returns at once.  With one it stores
    [toCell], [time] and [speed], each rounded to single precision (for
    numbers within its range), at the flat indices [id], [id + 1], [id + 2], [id = 4 * cellID + 4 *
    spriteCount * frameSlot], wherever these lie inside the buffer, and
    ignores the stores that do not; no other element changes and the
    table keeps its size.  When the three indices all lie outside, the
    buffer is unchanged: on a material as the constructor returns it,
    whose table has [4 * spriteCount * max(maxAnimationFrames, 1)]
    floats, that is so for [cellID >= 0] and [frameSlot >=
    max(maxAnimationFrames, 1)]. *)
Theorem addAnimationToTile_unchecked (m : SpriteMapMaterial) (cellID _frame : Z)
    (toCell time speed : Q) :
  let after := snd (addAnimationToTile cellID _frame toCell time speed m) in
  let id := cellID * 4 + spriteCount (params m) * 4 * _frame in
  fst (addAnimationToTile cellID _frame toCell time speed m) = Normal tt /\
  (_bufferView (_animationBuffer m) = None -> after = m) /\
  (forall buffer,
     _bufferView (_animationBuffer m) = Some buffer ->
     exists buffer',
       after =
         {| params := params m; _frameBuffer := _frameBuffer m;
            _tileBuffers := _tileBuffers m;
            _animationBuffer :=
              CreateRGBATexture buffer' (spriteCount (params m))
                (maxAnimationFrames (params m)) |} /\
       length buffer' = length buffer /\
       (float32Range toCell -> 0 <= id < Z.of_nat (length buffer) ->
        buffer' !! Z.to_nat id = Some (fround toCell)) /\
       (float32Range time -> 0 <= id + 1 < Z.of_nat (length buffer) ->
        buffer' !! Z.to_nat (id + 1) = Some (fround time)) /\
       (float32Range speed -> 0 <= id + 2 < Z.of_nat (length buffer) ->
        buffer' !! Z.to_nat (id + 2) = Some (fround speed)) /\
       (forall k : nat, ~ (id <= Z.of_nat k <= id + 2) -> buffer' !! k = buffer !! k) /\
       (id + 2 < 0 \/ Z.of_nat (length buffer) <= id -> buffer' = buffer)) /\
  (forall a, constructor a = Normal m ->
     0 <= cellID -> Z.max 1 (maxAnimationFrames (params m)) <= _frame ->
     after = m).
Proof.
  intros after id. unfold after. clear after.
  split; [|split; [|split]].
  - unfold addAnimationToTile, bind, get. simpl.
    destruct (_bufferView (_animationBuffer m)); reflexivity.
  - intros Hb. unfold addAnimationToTile, bind, get. simpl. by rewrite Hb.
  - intros buffer Hb.
    exists (typedSet (typedSet (typedSet buffer id toCell) (id + 1) time) (id + 2) speed).
    split; [|split; [|split; [|split; [|split; [|split]]]]].
    + unfold addAnimationToTile, bind, get. simpl. rewrite Hb. reflexivity.
    + by rewrite !typedSet_length.
    + intros _ Hr. rewrite !typedSet_lookup_ne by lia. by apply typedSet_lookup.
    + intros _ Hr. rewrite typedSet_lookup_ne by lia. apply typedSet_lookup.
      by rewrite typedSet_length.
    + intros _ Hr. apply typedSet_lookup. by rewrite !typedSet_length.
    + intros k Hk. rewrite !typedSet_lookup_cases, !typedSet_length.
      repeat case_decide; try reflexivity; lia.
    + intros Hout. rewrite (typedSet_outside buffer id) by lia.
      rewrite (typedSet_outside buffer (id + 1)) by lia.
      apply typedSet_outside. lia.
  - intros a Ha Hc Hf.
    destruct (constructor_inv a m Ha) as (_ & _ & Hab & _).
    rewrite createTileAnimationBuffer_zeros in Hab.
    unfold addAnimationToTile, bind, get. simpl. rewrite Hab. simpl.
    set (n := Z.to_nat (4 * spriteCount (params m) * Z.max 1 (maxAnimationFrames (params m)))).
    assert (Hsc : 0 <= spriteCount (params m)) by (unfold spriteCount; lia).
    assert (Hid : Z.of_nat n <= id) by (unfold id, n; nia).
    rewrite (typedSet_outside (replicate n 0%Q) id)
      by (rewrite length_replicate; lia).
    rewrite (typedSet_outside (replicate n 0%Q) (id + 1))
      by (rewrite length_replicate; lia).
    rewrite (typedSet_outside (replicate n 0%Q) (id + 2))
      by (rewrite length_replicate; lia).
    unfold put, _createTileAnimationBuffer. simpl.
    destruct m as [p fb tbs ab]. simpl in *. by rewrite Hab.
Qed.

Lemma addAnimationToTile_unchecked_witness :
  fst (addAnimationToTile 1 2 0 (1 # 2) 1 smallMaterial) = Normal tt /\
  snd (addAnimationToTile 1 2 0 (1 # 2) 1 smallMaterial) = smallMaterial.
Proof.
  destruct (addAnimationToTile_unchecked smallMaterial 1 2 0 (1 # 2) 1)
    as (Hrun & _ & _ & Hsame).
  split; [exact Hrun|].
  apply (Hsame smallArg); [reflexivity | lia | vm_compute; discriminate].
Defined.

(** C6, as stated, fails: sprite index 2 is outside [0, 2), yet the call
    returns normally and the table changes: slot 1 of sprite 0 now holds
    the transition. *)
Lemma addAnimationToTile_out_of_range_writes :
  spriteCount smallParams = 2 /\
  fst (addAnimationToTile 2 0 1 (1 # 2) 1 smallMaterial) = Normal tt /\
  _animationBuffer (snd (addAnimationToTile 2 0 1 (1 # 2) 1 smallMaterial)) =
    CreateRGBATexture [0; 0; 0; 0; 0; 0; 0; 0; 1; 1 # 2; 1; 0; 0; 0; 0; 0]%Q 2 2 /\
  _animationBuffer smallMaterial =
    CreateRGBATexture [0; 0; 0; 0; 0; 0; 0; 0; 0; 0; 0; 0; 0; 0; 0; 0]%Q 2 2.
Proof. repeat split. Qed.

(** ** The constructor *)

Lemma writeSprite_complete n i s data :
  complete s = true -> exists data', writeSprite n i s data = Normal data'.
Proof.
  unfold complete, writeSprite.
  destruct (frame s), (spriteSourceSize s), (sourceSize s); try discriminate.
  intros _. simpl. eauto.
Qed.

Lemma writeSprite_incomplete n i s data :
  complete s = false -> writeSprite n i s data = Throw TypeError.
Proof.
  unfold complete, writeSprite.
  destruct (frame s), (spriteSourceSize s), (sourceSize s); try discriminate;
    reflexivity.
Qed.

Lemma secondPass_incomplete n i rest data :
  forallb complete rest = false -> secondPass n i rest data = Throw TypeError.
Proof.
  revert i data. induction rest as [|s rest IH]; intros i data H; [discriminate|].
  simpl in *. destruct (complete s) eqn:Hs.
  - destruct (writeSprite_complete n i s data Hs) as [d ->]. simpl. by apply IH.
  - by rewrite writeSprite_incomplete.
Qed.

Lemma pushTileBuffers_length p n i acc :
  length (pushTileBuffers p n i acc) = (length acc + n)%nat.
Proof.
  revert i acc. induction n as [|n IH]; intros i acc; simpl; [lia|].
  rewrite IH, length_app. simpl. lia.
Qed.

Lemma pushTileBuffers_Forall (P : RawTexture -> Prop) p n i acc :
  Forall P acc -> (forall _layer, P (_createTileBuffer p None _layer)) ->
  Forall P (pushTileBuffers p n i acc).
Proof.
  revert i acc. induction n as [|n IH]; intros i acc Hacc HP; simpl; [exact Hacc|].
  apply IH; [|exact HP]. apply Forall_app. split; [exact Hacc|].
  constructor; [apply HP | constructor].
Qed.

(** C7, as amended: the constructor validates neither the stage size nor
    [layerCount].  When every atlas frame has its [frame],
    [spriteSourceSize] and [sourceSize] objects it returns a material
    with [max(layerCount, 0)] tile grids, each as wide and high as the
    stage and, on a stage with a zero side, without any cell.  It fails,
    with the [TypeError] of the frame-table pass and without returning a
    material, exactly when some frame lacks one of the three objects. *)
Theorem constructor_unvalidated (a : Arg.ISpriteMapMaterial) :
  (forallb complete (Arg.atlas a) = true ->
   exists m,
     constructor a = Normal m /\
     params m = defaults a /\
     length (_tileBuffers m) = Z.to_nat (nullish (Arg.layerCount a) 1) /\
     Forall (fun t => width t = stageX (Arg.stageSize a) /\
                      height t = stageY (Arg.stageSize a)) (_tileBuffers m) /\
     (stageX (Arg.stageSize a) = 0 \/ stageY (Arg.stageSize a) = 0 ->
      Forall (fun t => _bufferView t = Some []) (_tileBuffers m))) /\
  (forallb complete (Arg.atlas a) = false -> constructor a = Throw TypeError).
Proof.
  split.
  - intros Hc.
    destruct (buildFrameBuffer_columns (Arg.atlas a) Hc) as (data & Hb & _).
    unfold constructor. cbv zeta. unfold sprites. simpl atlas. rewrite Hb. simpl bindC.
    eexists. split; [reflexivity|]. simpl. split; [reflexivity|].
    split; [apply pushTileBuffers_length|]. split.
    + apply pushTileBuffers_Forall; [constructor|].
      intros _layer. unfold _createTileBuffer. simpl. by rewrite !orZero_id.
    + intros Hzero. apply pushTileBuffers_Forall; [constructor|].
      intros _layer. unfold _createTileBuffer. simpl.
      rewrite !orZero_id, pushRows_cells.
      replace (Z.to_nat (stageY (Arg.stageSize a)) * Z.to_nat (stageX (Arg.stageSize a)))%nat
        with 0%nat by lia.
      reflexivity.
  - intros Hc. unfold constructor, _buildFrameBuffer. cbv zeta. unfold sprites. simpl atlas.
    by rewrite secondPass_incomplete.
Qed.

Lemma constructor_unvalidated_witness :
  (exists m, constructor smallArg = Normal m /\ params m = smallParams /\
             length (_tileBuffers m) = 2%nat) /\
  constructor
    {| Arg.stageSize := mkStageSize 2 2;
       Arg.atlas :=
         [trimmedSprite;
          {| frame := Some (mkRect 0 0 4 4); spriteSourceSize := None;
             sourceSize := Some (mkSize 4 4); rotated := None; trimmed := None |}];
       Arg.layerCount := None; Arg.maxAnimationFrames := None;
       Arg.baseTile := None; Arg.flipU := None |} = Throw TypeError.
Proof.
  split.
  - destruct (constructor_unvalidated smallArg) as [H _].
    destruct (H eq_refl) as (m & Hm & Hp & Hl & _). exists m. auto.
  - destruct (constructor_unvalidated
                {| Arg.stageSize := mkStageSize 2 2;
                   Arg.atlas :=
                     [trimmedSprite;
                      {| frame := Some (mkRect 0 0 4 4); spriteSourceSize := None;
                         sourceSize := Some (mkSize 4 4); rotated := None;
                         trimmed := None |}];
                   Arg.layerCount := None; Arg.maxAnimationFrames := None;
                   Arg.baseTile := None; Arg.flipU := None |}) as [_ H].
    exact (H eq_refl).
Defined.

(** C7, as stated, fails: a stage of size 0 x 0 and a [layerCount] of 0
    are both accepted, and a material is returned. *)
Lemma constructor_accepts_degenerate_configuration :
  (exists m,
     constructor
       {| Arg.stageSize := mkStageSize 0 0; Arg.atlas := [trimmedSprite];
          Arg.layerCount := Some 1; Arg.maxAnimationFrames := Some 1;
          Arg.baseTile := None; Arg.flipU := None |} = Normal m /\
     _tileBuffers m = [CreateRGBATexture [] 0 0]) /\
  (exists m,
     constructor
       {| Arg.stageSize := mkStageSize 2 2; Arg.atlas := [trimmedSprite];
          Arg.layerCount := Some 0; Arg.maxAnimationFrames := Some 1;
          Arg.baseTile := None; Arg.flipU := None |} = Normal m /\
     _tileBuffers m = []).
Proof. split; eexists; split; reflexivity. Qed.

(** ** The compositing sampler *)

Section Sampler.

Import Glsl Shader.
Local Open Scope Q_scope.

Lemma Qfloor_unique (q : Q) (z : Z) :
  inject_Z z <= q -> q < inject_Z (z + 1) -> Qfloor q = z.
Proof.
  intros Hle Hlt.
  pose proof (Qfloor_le q) as Hf. pose proof (Qlt_floor q) as Hc.
  assert (H1 : (Qfloor q < z + 1)%Z)
    by (rewrite Zlt_Qlt; eapply Qle_lt_trans; [exact Hf | exact Hlt]).
  assert (H2 : (z < Qfloor q + 1)%Z)
    by (rewrite Zlt_Qlt; eapply Qle_lt_trans; [exact Hle | exact Hc]).
  lia.
Qed.

(** The column of the texel that holds data of sprite [A]. *)
Lemma sprite_column (A sc : Z) :
  (0 < sc)%Z ->
  Qfloor ((inject_Z A + (1 # 2)) / inject_Z sc * inject_Z sc) = A.
Proof.
  intros Hsc.
  assert (Hne : ~ inject_Z sc == 0).
  { intros H. assert (inject_Z 0 < inject_Z sc) by (rewrite <- Zlt_Qlt; lia).
    change (inject_Z 0) with 0 in *. lra. }
  assert (Heq : (inject_Z A + (1 # 2)) / inject_Z sc * inject_Z sc == inject_Z A + (1 # 2))
    by (field; exact Hne).
  rewrite Heq. apply Qfloor_unique; rewrite ?inject_Z_plus;
    change (inject_Z 1) with 1; lra.
Qed.

(** The row of the texel that holds slot [k]. *)
Lemma slot_row (MAX k : Z) (f : Q) :
  (0 < MAX)%Z -> f == inject_Z k ->
  Qfloor (1 / inject_Z MAX * f * inject_Z MAX) = k.
Proof.
  intros HM Hf.
  assert (Hne : ~ inject_Z MAX == 0).
  { intros H. assert (inject_Z 0 < inject_Z MAX) by (rewrite <- Zlt_Qlt; lia).
    change (inject_Z 0) with 0 in *. lra. }
  assert (Heq : 1 / inject_Z MAX * f * inject_Z MAX == inject_Z k)
    by (rewrite Hf; field; exact Hne).
  rewrite Heq. apply Qfloor_Z.
Qed.

Lemma gt_true a b : gt a b = true <-> b < a.
Proof.
  unfold gt. rewrite negb_true_iff, <- not_true_iff_false, Qle_bool_iff.
  split; [apply Qnot_le_lt | apply Qlt_not_le].
Qed.

Lemma gt_false a b : gt a b = false <-> a <= b.
Proof. unfold gt. by rewrite negb_false_iff, Qle_bool_iff. Qed.

Lemma mod_comp a b c : a == b -> mod_ a c == mod_ b c.
Proof.
  intros H. unfold mod_, floor.
  assert (Hfl : Qfloor (a / c) = Qfloor (b / c))
    by (apply Qfloor_comp; rewrite H; reflexivity).
  rewrite Hfl, H. reflexivity.
Qed.


Section Animation.

Variable U : Inputs.
Variable sc A : Z.
Variable mt : Q.
Hypothesis HMAX : (0 < MAX_ANIMATION_FRAMES U)%Z.
Hypothesis Hsc : (0 < sc)%Z.
Hypothesis Hcount : spriteCount U = inject_Z sc.
Hypothesis Hwidth : width (animationBuffer U) = sc.
Hypothesis Hheight : height (animationBuffer U) = MAX_ANIMATION_FRAMES U.

Lemma fetch_slot (k : Z) (f : Q) :
  f == inject_Z k ->
  texture2D (animationBuffer U)
    (mkVec2 ((inject_Z A + (1 # 2)) / spriteCount U) (aFrameSteps U * f)) =
  texel (animationBuffer U) A k.
Proof.
  intros Hf. unfold texture2D, aFrameSteps. cbn [x2 y2].
  rewrite Hcount, Hwidth, Hheight.
  by rewrite sprite_column, (slot_row _ k f).
Qed.

Lemma fetch_slot_0 :
  texture2D (animationBuffer U)
    (mkVec2 ((inject_Z A + (1 # 2)) / spriteCount U) 0) =
  texel (animationBuffer U) A 0.
Proof.
  unfold texture2D. cbn [x2 y2].
  rewrite Hcount, Hwidth, Hheight, sprite_column by exact Hsc.
  assert (H : 0 * inject_Z (MAX_ANIMATION_FRAMES U) == inject_Z 0)
    by (change (inject_Z 0) with 0; ring).
  by rewrite H, Qfloor_Z.
Qed.

(** No slot of the row has a hold fraction above [mt]: the scan runs
    to its end and the frame stays. *)
Lemma animationLoop_stays (n : nat) :
  forall (k : Z) (f : Q) (animationData : vec4),
    f == inject_Z k -> (0 <= k)%Z ->
    (k + Z.of_nat n <= MAX_ANIMATION_FRAMES U)%Z ->
    y4 animationData <= mt ->
    (forall r, (0 <= r < MAX_ANIMATION_FRAMES U)%Z ->
               y4 (texel (animationBuffer U) A r) <= mt) ->
    animationLoop U n f mt (inject_Z A) animationData = inject_Z A.
Proof.
  induction n as [|n IH]; intros k f ad Hf Hk Hn Had Hrows; [reflexivity|].
  simpl. apply gt_false in Had. rewrite Had.
  rewrite (fetch_slot k f Hf).
  apply (IH (k + 1)%Z).
  - rewrite Hf, inject_Z_plus. reflexivity.
  - lia.
  - lia.
  - apply Hrows. lia.
  - exact Hrows.
Qed.

End Animation.

End Sampler.

(** C1: a sprite whose animation row is the single transition
    [(B, 0.5, 1.0)] is shown as sprite [B] while [time mod 1] is in
    [0, 0.5) and as itself while [time mod 1] is in [0.5, 1); at
    [time mod 1 = 0.5] the hold fraction does not exceed [mt] and the
    scan goes on to the end of the row. *)
Theorem animation_single_transition (U : Shader.Inputs) (sc A : Z) (B : Q) :
  1 <= Shader.MAX_ANIMATION_FRAMES U ->
  0 <= A < sc ->
  Shader.spriteCount U = inject_Z sc ->
  width (Shader.animationBuffer U) = sc ->
  height (Shader.animationBuffer U) = Shader.MAX_ANIMATION_FRAMES U ->
  singleTransition (Shader.animationBuffer U) A B (1 # 2) 1 ->
  let mt := Glsl.mod_ (Shader.time U) 1 in
  let shown := Shader.resolveAnimation U (inject_Z A) in
  ((0 <= mt)%Q /\ (mt < 1 # 2)%Q -> shown = B) /\
  ((1 # 2 <= mt)%Q /\ (mt < 1)%Q -> shown = inject_Z A).
Proof.
  intros HMAX HA Hcount Hwidth Hheight (Hx & Hy & Hz & Hrest) mt shown.
  assert (Hsc : 0 < sc) by lia.
  set (ad := Glsl.texel (Shader.animationBuffer U) A 0) in *.
  assert (Hshown : shown =
            Shader.animationLoop U (Z.to_nat (Shader.MAX_ANIMATION_FRAMES U)) 0
              (Glsl.mod_ (Shader.time U * Glsl.z4 ad) 1) (inject_Z A) ad).
  { unfold shown, Shader.resolveAnimation.
    rewrite (fetch_slot_0 U sc A Hsc Hcount Hwidth Hheight). fold ad.
    assert (Hgt : Glsl.gt (Glsl.y4 ad) 0 = true) by (apply gt_true; rewrite Hy; reflexivity).
    by rewrite Hgt. }
  assert (Hmt : (Glsl.mod_ (Shader.time U * Glsl.z4 ad) 1 == mt)%Q).
  { apply mod_comp. rewrite Hz. ring. }
  rewrite Hshown. split.
  - intros [_ Hlt].
    destruct (Z.to_nat (Shader.MAX_ANIMATION_FRAMES U)) as [|n] eqn:Hn; [lia|].
    cbn [Shader.animationLoop].
    assert (Hgt : Glsl.gt (Glsl.y4 ad) (Glsl.mod_ (Shader.time U * Glsl.z4 ad) 1) = true)
      by (apply gt_true; rewrite Hy, Hmt; exact Hlt).
    rewrite Hgt. exact Hx.
  - intros [Hge _].
    apply (animationLoop_stays U sc A _ ltac:(lia) Hsc Hcount Hwidth Hheight _ 0).
    + reflexivity.
    + lia.
    + lia.
    + rewrite Hy, Hmt. exact Hge.
    + intros r Hr. destruct (Z.eq_dec r 0) as [->|Hne].
      * fold ad. rewrite Hy, Hmt. exact Hge.
      * rewrite (Hrest r) by lia. rewrite Hmt.
        eapply Qle_trans; [|exact Hge]. discriminate.
Qed.

Lemma animatedInputs_singleTransition time :
  singleTransition (Shader.animationBuffer (animatedInputs time)) 0 1 (1 # 2) 1.
Proof.
  split; [reflexivity|]. split; [reflexivity|]. split; [reflexivity|].
  intros r Hr. simpl in Hr. assert (r = 1) as -> by lia. reflexivity.
Defined.

Lemma animation_single_transition_witness :
  Shader.resolveAnimation (animatedInputs (1 # 4)) 0 = 1%Q /\
  Shader.resolveAnimation (animatedInputs (7 # 4)) 0 = 0%Q.
Proof.
  split.
  - refine (proj1 (animation_single_transition (animatedInputs (1 # 4)) 2 0 1
                     _ _ eq_refl eq_refl eq_refl (animatedInputs_singleTransition _)) _).
    + simpl. lia.
    + lia.
    + split; [vm_compute; discriminate | vm_compute; reflexivity].
  - refine (proj2 (animation_single_transition (animatedInputs (7 # 4)) 2 0 1
                     _ _ eq_refl eq_refl eq_refl (animatedInputs_singleTransition _)) _).
    + simpl. lia.
    + lia.
    + split; [vm_compute; discriminate | vm_compute; reflexivity].
Defined.

Lemma min_Qmin a b : (Glsl.min a b == Qmin a b)%Q.
Proof.
  unfold Glsl.min. destruct (Qle_bool a b) eqn:E.
  - apply Qle_bool_iff in E. symmetry. by apply Q.min_l.
  - assert (H : (b <= a)%Q).
    { apply Qlt_le_weak, Qnot_le_lt. intros H. apply Qle_bool_iff in H. congruence. }
    symmetry. by apply Q.min_r.
Qed.

Lemma blend_seed sColor nc : Shader.blend 0 sColor nc = nc.
Proof. reflexivity. Qed.

Lemma blend_over i sColor nc :
  i <> 0 ->
  Shader.blend i sColor nc =
  Glsl.mkVec4 (Glsl.mix (Glsl.x4 sColor) (Glsl.x4 nc) (Glsl.w4 nc))
              (Glsl.mix (Glsl.y4 sColor) (Glsl.y4 nc) (Glsl.w4 nc))
              (Glsl.mix (Glsl.z4 sColor) (Glsl.z4 nc) (Glsl.w4 nc))
              (Glsl.min (Glsl.w4 sColor + Glsl.w4 nc) 1).
Proof. intros Hi. unfold Shader.blend. by destruct (Z.eqb_spec i 0). Qed.

Lemma layerBody_sColor U i tileID l :
  Shader.sColor (Shader.layerBody U i tileID l) =
  Shader.blend i (Shader.sColor l)
    (Shader.spriteDiffuse U (snd (Shader.layerCoord U i tileID (Shader.tileUV l)))).
Proof.
  unfold Shader.layerBody. by destruct (Shader.layerCoord U i tileID (Shader.tileUV l)).
Qed.

Lemma layerBody_tileUV U i tileID l :
  Shader.tileUV (Shader.layerBody U i tileID l) =
  fst (Shader.layerCoord U i tileID (Shader.tileUV l)).
Proof.
  unfold Shader.layerBody. by destruct (Shader.layerCoord U i tileID (Shader.tileUV l)).
Qed.

(** The material of the two-layer composite is one that the API
    builds. *)
Example compositeMaterial_built :
  exists m, constructor compositeArg = Normal m /\
    this (snd (changeTiles 1 (One 1%positive) 1
                 {| this := m; heap := {[ 1%positive := mkVector2 0 0 ]} |})) =
    compositeMaterial.
Proof. eexists. split; reflexivity. Qed.




(** C4 does not hold of the shader: [tileUV] is declared once, outside
    the layer loop, and the swap of a rotated layer is assigned to it.
    At a pixel with fractional coordinate (1/4, 3/4) where layer 0 shows
    a rotated sprite and layer 1 an unrotated one, layer 1 is read with
    the swapped coordinate (3/4, 1/4), at (9/32, 5/64) of the sheet; an
    unswapped read would be at (3/32, 15/64). *)
Theorem rotation_swap_carries_over :
  let U := twoLayerInputs in
  let tile := Glsl.mkVec2 0 0 in
  let start := Shader.initialLocals U (Glsl.mkVec2 (1 # 4) (3 # 4)) in
  let afterLayer0 := Shader.layerBody U 0 tile start in
  layerRotated U 0 tile = 1%Q /\
  layerRotated U 1 tile = 0%Q /\
  Shader.tileUV start = Glsl.mkVec2 (1 # 4) (3 # 4) /\
  fst (Shader.layerCoord U 1 tile (Shader.tileUV afterLayer0)) = Glsl.mkVec2 (3 # 4) (1 # 4) /\
  vec2_eq (snd (Shader.layerCoord U 1 tile (Shader.tileUV afterLayer0)))
          (Glsl.mkVec2 (9 # 32) (5 # 64)) /\
  vec2_eq (snd (Shader.layerCoord U 1 tile (Shader.tileUV start)))
          (Glsl.mkVec2 (3 # 32) (15 # 64)).
Proof. repeat split; vm_compute; reflexivity. Qed.

(** The same leak seen in the output colour: with a source image that
    returns its coordinate, the pixel comes out as the swapped read. *)
Example rotation_swap_in_output :
  let out := Shader.Fragment_Custom_Diffuse twoLayerInputs (Glsl.mkVec2 (1 # 4) (3 # 4)) in
  (Glsl.x4 out == 9 # 32)%Q /\ (Glsl.y4 out == 5 # 64)%Q.
Proof. split; vm_compute; reflexivity. Qed.

(** ** The animation table written by [addAnimationToTile] *)

Lemma fresh_animation_table (p : Params) :
  1 <= maxAnimationFrames p ->
  _createTileAnimationBuffer p None =
  CreateRGBATexture
    (replicate (Z.to_nat (4 * spriteCount p * maxAnimationFrames p)) 0%Q)
    (spriteCount p) (maxAnimationFrames p).
Proof.
  intros Hmax. unfold _createTileAnimationBuffer.
  rewrite pushAnimationRows_replicate, app_nil_l. do 3 f_equal.
  unfold spriteCount. nia.
Qed.


(** * Further properties of the buffers *)

(** ** What the frame table stores and what it drops *)

Lemma writeSprite_sameButTrimWidth n i s s' data :
  sameButTrimWidth s s' -> writeSprite n i s data = writeSprite n i s' data.
Proof.
  intros (Hf & Hss & Hr & Ht & Hsss). unfold writeSprite.
  rewrite Hf, Hss, Hr, Ht.
  destruct (spriteSourceSize s) as [a|], (spriteSourceSize s') as [b|];
    try contradiction; [|reflexivity].
  destruct Hsss as (Hx & Hy & Hh).
  destruct (frame s'), (sourceSize s'); simpl; rewrite ?Hx, ?Hy, ?Hh; reflexivity.
Qed.

Lemma secondPass_sameButTrimWidth n i rest rest' data :
  Forall2 sameButTrimWidth rest rest' ->
  secondPass n i rest data = secondPass n i rest' data.
Proof.
  intros H. revert i data. induction H as [|s s' rest rest' Hs _ IH]; intros i data.
  - reflexivity.
  - simpl. rewrite (writeSprite_sameButTrimWidth _ _ _ _ _ Hs).
    destruct (writeSprite n i s' data); simpl; [apply IH | reflexivity].
Qed.

(** X1: [spriteSourceSize.w] never reaches the frame table: two atlases
    whose entries agree on everything else build the same table (or fail
    alike). *)
Theorem buildFrameBuffer_drops_trim_width (sprites sprites' : list ISpriteJSONSprite) :
  Forall2 sameButTrimWidth sprites sprites' ->
  _buildFrameBuffer sprites = _buildFrameBuffer sprites'.
Proof.
  intros H. unfold _buildFrameBuffer. cbv zeta.
  rewrite <- (Forall2_length _ _ _ H).
  by rewrite (secondPass_sameButTrimWidth _ _ _ _ _ H).
Qed.

Lemma buildFrameBuffer_drops_trim_width_witness :
  _buildFrameBuffer [rotatedSprite; trimmedSprite] =
  _buildFrameBuffer [rotatedSprite; trimmedSpriteWider].
Proof.
  apply buildFrameBuffer_drops_trim_width.
  repeat constructor.
Defined.

Lemma texel_lookup (t : RawTexture) (data : list Q) (col row : Z) (a b c d : Q) :
  _bufferView t = Some data ->
  0 <= col < width t -> 0 <= row < height t ->
  data !! Z.to_nat ((row * width t + col) * 4 + 0) = Some a ->
  data !! Z.to_nat ((row * width t + col) * 4 + 1) = Some b ->
  data !! Z.to_nat ((row * width t + col) * 4 + 2) = Some c ->
  data !! Z.to_nat ((row * width t + col) * 4 + 3) = Some d ->
  Glsl.texel t col row = Glsl.mkVec4 a b c d.
Proof.
  intros Hb Hc Hr H0 H1 H2 H3. rewrite texel_inside by lia. cbv zeta.
  rewrite Hb. cbn [nullish].
  by rewrite H0, H1, H2, H3.
Qed.

Lemma texelOf_lookups (w : nat) (data : list Q) (col row : nat) (a b c d : Q) :
  texelOf w data col row = [Some a; Some b; Some c; Some d] ->
  data !! channel w col row 0 = Some a /\ data !! channel w col row 1 = Some b /\
  data !! channel w col row 2 = Some c /\ data !! channel w col row 3 = Some d.
Proof. unfold texelOf. intros [= -> -> -> ->]. auto. Qed.

Lemma frame_row_decoded (U : Shader.Inputs) (sprites : list ISpriteJSONSprite)
    (i : nat) (s : ISpriteJSONSprite) (f sss : Rect) (ss : Size) (t : RawTexture) :
  _buildFrameBuffer sprites = Normal t ->
  Shader.frameBuffer U = t ->
  Shader.spriteCount U = inject_Z (Z.of_nat (length sprites)) ->
  sprites !! i = Some s ->
  frame s = Some f -> spriteSourceSize s = Some sss -> sourceSize s = Some ss ->
  Shader.getFrameData U (inject_Z (Z.of_nat i) + (1 # 2))%Q =
  Glsl.mkMat4
    (Glsl.mkVec4 (rx f) (ry f) (rw f) (rh f))
    (Glsl.mkVec4 (rx sss) (ry sss) 0 (rh sss))
    (Glsl.mkVec4 (sw ss) (sh ss) (flag (truthy (rotated s))) (flag (truthy (trimmed s))))
    Glsl.vec4_0.
Proof.
  intros Hbuild Hfb Hcount Hi Hf Hsss Hss.
  destruct (forallb complete sprites) eqn:Hc.
  2:{ unfold _buildFrameBuffer in Hbuild. cbv zeta in Hbuild.
      rewrite secondPass_incomplete in Hbuild by exact Hc. discriminate. }
  destruct (buildFrameBuffer_columns sprites Hc) as (data & Hb & Hlen & Hcol & Hzero).
  rewrite Hb in Hbuild. injection Hbuild as <-.
  set (n := length sprites) in *.
  assert (Hin : (i < n)%nat) by (apply lookup_lt_Some in Hi; exact Hi).
  destruct (Hcol i s Hi) as (f' & sss' & ss' & Hf' & Hsss' & Hss' & H0 & H10 & H11 & H13 & H2).
  rewrite Hf in Hf'. rewrite Hsss in Hsss'. rewrite Hss in Hss'.
  injection Hf' as <-. injection Hsss' as <-. injection Hss' as <-.
  apply texelOf_lookups in H0 as (H00 & H01 & H02 & H03).
  apply texelOf_lookups in H2 as (H20 & H21 & H22 & H23).
  assert (H12 : data !! channel n i 1 2 = Some 0%Q).
  { apply Hzero; [unfold channel; lia|].
    intros j Hj. unfold spriteIndices, channel, not.
    rewrite !elem_of_cons, elem_of_nil. lia. }
  unfold Shader.getFrameData. rewrite Hfb, Hcount. unfold Glsl.texture2D.
  cbn [Glsl.x2 Glsl.y2 width height CreateRGBATexture].
  rewrite sprite_column by lia.
  assert (R0 : (0 * inject_Z 4 == inject_Z 0)%Q) by reflexivity.
  assert (R1 : (Shader.fdStep * 1 * inject_Z 4 == inject_Z 1)%Q) by reflexivity.
  assert (R2 : (Shader.fdStep * 2 * inject_Z 4 == inject_Z 2)%Q) by reflexivity.
  rewrite R0, R1, R2, !Qfloor_Z.
  f_equal.
  - apply texel_lookup with (data := data); cbn [width height _bufferView CreateRGBATexture];
      try reflexivity; try lia.
    + etransitivity; [|exact H00]. f_equal. unfold channel. lia.
    + etransitivity; [|exact H01]. f_equal. unfold channel. lia.
    + etransitivity; [|exact H02]. f_equal. unfold channel. lia.
    + etransitivity; [|exact H03]. f_equal. unfold channel. lia.
  - apply texel_lookup with (data := data); cbn [width height _bufferView CreateRGBATexture];
      try reflexivity; try lia.
    + etransitivity; [|exact H10]. f_equal. unfold channel. lia.
    + etransitivity; [|exact H11]. f_equal. unfold channel. lia.
    + etransitivity; [|exact H12]. f_equal. unfold channel. lia.
    + etransitivity; [|exact H13]. f_equal. unfold channel. lia.
  - apply texel_lookup with (data := data); cbn [width height _bufferView CreateRGBATexture];
      try reflexivity; try lia.
    + etransitivity; [|exact H20]. f_equal. unfold channel. lia.
    + etransitivity; [|exact H21]. f_equal. unfold channel. lia.
    + etransitivity; [|exact H22]. f_equal. unfold channel. lia.
    + etransitivity; [|exact H23]. f_equal. unfold channel. lia.
Qed.

(** X2: what [_buildFrameBuffer] encodes for sprite [i] is what
    [getFrameData] decodes for frame id [i + 0.5]: the [frame] rectangle,
    then [spriteSourceSize.x, .y, 0, .h], then [sourceSize.w, .h] with
    the two flags, then zeros. *)
Theorem getFrameData_reads_sprite (U : Shader.Inputs) (sprites : list ISpriteJSONSprite)
    (i : nat) (s : ISpriteJSONSprite) (f sss : Rect) (ss : Size) (t : RawTexture) :
  _buildFrameBuffer sprites = Normal t ->
  Shader.frameBuffer U = t ->
  Shader.spriteCount U = inject_Z (Z.of_nat (length sprites)) ->
  sprites !! i = Some s ->
  frame s = Some f -> spriteSourceSize s = Some sss -> sourceSize s = Some ss ->
  Shader.getFrameData U (inject_Z (Z.of_nat i) + (1 # 2))%Q =
  Glsl.mkMat4
    (Glsl.mkVec4 (rx f) (ry f) (rw f) (rh f))
    (Glsl.mkVec4 (rx sss) (ry sss) 0 (rh sss))
    (Glsl.mkVec4 (sw ss) (sh ss) (flag (truthy (rotated s))) (flag (truthy (trimmed s))))
    Glsl.vec4_0.
Proof. exact (frame_row_decoded U sprites i s f sss ss t). Qed.

Lemma getFrameData_reads_sprite_witness :
  Shader.getFrameData twoLayerInputs (inject_Z 1 + (1 # 2))%Q =
  Glsl.mkMat4 (Glsl.mkVec4 10 0 12 10) (Glsl.mkVec4 2 3 0 12) (Glsl.mkVec4 16 20 1 1)
    Glsl.vec4_0.
Proof.
  exact (getFrameData_reads_sprite twoLayerInputs [trimmedSprite; rotatedSprite] 1
           rotatedSprite (mkRect 10 0 12 10) (mkRect 2 3 10 12) (mkSize 16 20)
           (_frameBuffer smallMaterial)
           eq_refl eq_refl eq_refl eq_refl eq_refl eq_refl eq_refl).
Defined.

(** ** The buffers a material starts with *)

Lemma pushTileBuffers_lookup p n i acc k :
  (k < n)%nat ->
  pushTileBuffers p n i acc !! (length acc + k)%nat =
  Some (_createTileBuffer p None (i + Z.of_nat k)).
Proof.
  revert i acc k. induction n as [|n IH]; intros i acc k Hk; [lia|].
  simpl. destruct k as [|k].
  - assert (Hacc : forall m j a, (length a > length acc)%nat ->
                     a !! length acc = Some (_createTileBuffer p None i) ->
                     pushTileBuffers p m j a !! length acc =
                     Some (_createTileBuffer p None i)).
    { induction m as [|m IHm]; intros j a Hlen Ha; [exact Ha|].
      simpl. apply IHm; [rewrite length_app; lia|].
      by rewrite lookup_app_l by lia. }
    rewrite Nat.add_0_r, Z.add_0_r. apply Hacc.
    + rewrite length_app. simpl. lia.
    + by rewrite list_lookup_middle.
  - replace (length acc + S k)%nat with (length (acc ++ [_createTileBuffer p None i]) + k)%nat
      by (rewrite length_app; simpl; lia).
    rewrite IH by lia. do 2 f_equal. lia.
Qed.

Lemma createTileBuffer_holdsTexels p _layer :
  0 <= stageX (stageSize p) -> 0 <= stageY (stageSize p) ->
  holdsTexels (_createTileBuffer p None _layer)
    (stageX (stageSize p)) (stageY (stageSize p)).
Proof.
  intros Hx Hy. unfold _createTileBuffer, holdsTexels. cbv zeta.
  rewrite !orZero_id, pushRows_cells, app_nil_l.
  cbn [width height _bufferView CreateRGBATexture].
  split; [reflexivity|]. split; [reflexivity|].
  eexists. split; [reflexivity|]. rewrite length_cells. nia.
Qed.

(** X3: the animation table the constructor allocates is all zero and
    has one slot per sprite even when [maxAnimationFrames] is below 1,
    while the texture is declared [maxAnimationFrames] rows high. *)
Theorem createTileAnimationBuffer_initial (p : Params) :
  exists data,
    _createTileAnimationBuffer p None =
      CreateRGBATexture data (spriteCount p) (maxAnimationFrames p) /\
    Z.of_nat (length data) = 4 * spriteCount p * Z.max 1 (maxAnimationFrames p) /\
    Forall (fun v => v = 0%Q) data.
Proof.
  rewrite createTileAnimationBuffer_zeros. eexists. split; [reflexivity|]. split.
  - rewrite length_replicate. unfold spriteCount. nia.
  - apply Forall_forall. intros v Hv. by apply elem_of_replicate in Hv as [-> _].
Qed.

(** X4: a material that the constructor returns for a stage of
    non-negative size and at least one animation slot has a frame table
    of [spriteCount] x 4 texels, an animation table of [spriteCount] x
    [maxAnimationFrames] texels and [max(layerCount, 0)] tile grids of
    [stageWidth] x [stageHeight] texels, each with a buffer view of
    exactly four floats per texel. *)
Theorem constructor_wellFormed (a : Arg.ISpriteMapMaterial) (m : SpriteMapMaterial) :
  constructor a = Normal m ->
  0 <= stageX (Arg.stageSize a) -> 0 <= stageY (Arg.stageSize a) ->
  1 <= nullish (Arg.maxAnimationFrames a) 1 ->
  wellFormed m.
Proof.
  intros Hm Hx Hy Hmax. unfold constructor in Hm. cbv zeta in Hm.
  destruct (forallb complete (sprites (defaults a))) eqn:Hc.
  2:{ unfold _buildFrameBuffer in Hm. cbv zeta in Hm.
      rewrite secondPass_incomplete in Hm by exact Hc. discriminate. }
  destruct (buildFrameBuffer_columns _ Hc) as (data & Hb & Hlen & _).
  rewrite Hb in Hm. injection Hm as <-.
  unfold wellFormed. cbn [params _frameBuffer _animationBuffer _tileBuffers].
  change (stageSize (defaults a)) with (Arg.stageSize a).
  change (maxAnimationFrames (defaults a)) with (nullish (Arg.maxAnimationFrames a) 1).
  split; [exact Hx|]. split; [exact Hy|]. split; [exact Hmax|].
  split; [|split; [|split]].
  - unfold holdsTexels, spriteCount. cbn [width height _bufferView CreateRGBATexture].
    split; [reflexivity|]. split; [reflexivity|].
    exists data. split; [reflexivity|]. lia.
  - rewrite fresh_animation_table by exact Hmax.
    unfold holdsTexels. cbn [width height _bufferView CreateRGBATexture].
    split; [reflexivity|]. split; [reflexivity|].
    eexists. split; [reflexivity|]. rewrite length_replicate.
    change (maxAnimationFrames (defaults a)) with (nullish (Arg.maxAnimationFrames a) 1).
    unfold spriteCount. nia.
  - rewrite pushTileBuffers_length. reflexivity.
  - apply pushTileBuffers_Forall; [constructor|].
    intros _layer. by apply createTileBuffer_holdsTexels.
Qed.

Lemma constructor_wellFormed_witness : wellFormed smallMaterial.
Proof.
  apply (constructor_wellFormed smallArg smallMaterial); [reflexivity|simpl; lia..].
Defined.

Lemma smallMaterial_wellFormed : wellFormed smallMaterial.
Proof.
  unfold wellFormed, holdsTexels. simpl.
  repeat split; try lia; try (eexists; split; [reflexivity|reflexivity]).
  repeat constructor; eexists; split; reflexivity.
Defined.

(** ** Reading back what [addAnimationToTile] wrote *)

(** X5: inside the table, [addAnimationToTile(cellID, frame, toCell,
    time, speed)] sets the first three channels of the texel of sprite
    [cellID], slot [frame], to the three numbers rounded to single
    precision, keeps its fourth channel, and changes no other texel. *)
Theorem addAnimationToTile_reads_back (m : SpriteMapMaterial) (cellID _frame : Z)
    (toCell time speed : Q) :
  wellFormed m ->
  0 <= cellID < spriteCount (params m) ->
  0 <= _frame < maxAnimationFrames (params m) ->
  float32Range toCell -> float32Range time -> float32Range speed ->
  let before := _animationBuffer m in
  let after := _animationBuffer (snd (addAnimationToTile cellID _frame toCell time speed m)) in
  Glsl.texel after cellID _frame =
    Glsl.mkVec4 (fround toCell) (fround time) (fround speed)
      (Glsl.w4 (Glsl.texel before cellID _frame)) /\
  forall col row,
    0 <= col < spriteCount (params m) -> 0 <= row < maxAnimationFrames (params m) ->
    (col, row) <> (cellID, _frame) ->
    Glsl.texel after col row = Glsl.texel before col row.
Proof.
  intros (_ & _ & Hmax & _ & (Hw & Hh & buffer & Hb & Hlen) & _) Hc Hf _ _ _ before after.
  set (sc := spriteCount (params m)) in *. set (mx := maxAnimationFrames (params m)) in *.
  set (id := cellID * 4 + sc * 4 * _frame).
  assert (Hid0 : 0 <= id) by (unfold id; nia).
  assert (Hid2 : id + 2 < Z.of_nat (length buffer)) by (unfold id; nia).
  destruct (three_stores buffer id toCell time speed Hid0 Hid2) as (Hx & Hy & Hz & Hother).
  set (buffer' := typedSet (typedSet (typedSet buffer id toCell) (id + 1) time)
                    (id + 2) speed) in *.
  assert (Hafter : after = CreateRGBATexture buffer' sc mx).
  { unfold after, addAnimationToTile, bind, get. simpl. rewrite Hb. reflexivity. }
  rewrite Hafter. unfold before. split.
  - rewrite !texel_inside by (cbn [width height CreateRGBATexture]; lia).
    cbv zeta. cbn [width height _bufferView CreateRGBATexture]. rewrite Hw, Hb.
    cbn [nullish Glsl.w4].
    replace ((_frame * sc + cellID) * 4 + 0) with id by (unfold id; lia).
    replace ((_frame * sc + cellID) * 4 + 1) with (id + 1) by (unfold id; lia).
    replace ((_frame * sc + cellID) * 4 + 2) with (id + 2) by (unfold id; lia).
    replace ((_frame * sc + cellID) * 4 + 3) with (id + 3) by (unfold id; lia).
    rewrite Hx, Hy, Hz, Hother by lia. reflexivity.
  - intros col row Hcol Hrow Hne.
    rewrite !texel_inside by (cbn [width height CreateRGBATexture]; lia).
    cbv zeta. cbn [width height _bufferView CreateRGBATexture]. rewrite Hw, Hb.
    cbn [nullish].
    assert (Hcell : row * sc + col <> _frame * sc + cellID).
    { intros Heq. apply Hne. assert (row = _frame) by nia. subst row.
      f_equal. lia. }
    assert (0 <= row * sc) by nia. assert (0 <= _frame * sc) by nia.
    rewrite !Hother by (unfold id; lia). reflexivity.
Qed.

Lemma addAnimationToTile_reads_back_witness :
  Glsl.texel
    (_animationBuffer (snd (addAnimationToTile 1 1 0 (3 # 10) 2 smallMaterial))) 1 1 =
    Glsl.mkVec4 (fround 0) (fround (3 # 10)) (fround 2) 0 /\
  forall col row, 0 <= col < 2 -> 0 <= row < 2 -> (col, row) <> (1, 1) ->
    Glsl.texel (_animationBuffer (snd (addAnimationToTile 1 1 0 (3 # 10) 2 smallMaterial)))
      col row =
    Glsl.texel (_animationBuffer smallMaterial) col row.
Proof.
  apply (addAnimationToTile_reads_back smallMaterial 1 1 0 (3 # 10) 2
           smallMaterial_wellFormed); vm_compute; try reflexivity;
    (split; [discriminate | reflexivity]).
Defined.

(** * Further properties of the mutators *)

(** X6: [addAnimationToTile] keeps the shape of every buffer, whatever
    its arguments. *)
Theorem addAnimationToTile_wellFormed (m : SpriteMapMaterial) (cellID _frame : Z)
    (toCell time speed : Q) :
  wellFormed m ->
  wellFormed (snd (addAnimationToTile cellID _frame toCell time speed m)).
Proof.
  intros (Hx & Hy & Hmax & Hfb & (Hw & Hh & buffer & Hb & Hlen) & Hn & Htb).
  unfold addAnimationToTile, bind, get. simpl. rewrite Hb. simpl.
  unfold wellFormed. cbn [params _frameBuffer _animationBuffer _tileBuffers].
  repeat (split; [assumption|]). split; [|split; assumption].
  unfold holdsTexels. cbn [width height _bufferView CreateRGBATexture].
  split; [reflexivity|]. split; [reflexivity|].
  eexists. split; [reflexivity|]. by rewrite !typedSet_length.
Qed.

Lemma addAnimationToTile_wellFormed_witness :
  wellFormed (snd (addAnimationToTile 7 (-3) 1 (1 # 2) 1 smallMaterial)).
Proof. exact (addAnimationToTile_wellFormed smallMaterial 7 (-3) 1 (1 # 2) 1 smallMaterial_wellFormed). Defined.

(** ** The exact result of [changeTiles] *)

Lemma list_insert_alter_same {A} (f : A -> A) (l : list A) (i : nat) (a : A) :
  <[i := a]> (alter f i l) = <[i := a]> l.
Proof.
  apply list_eq. intros k. destruct (decide (i = k)) as [->|Hne].
  - destruct (decide (k < length l)%nat) as [Hlt|Hge].
    + by rewrite !list_lookup_insert_eq by (rewrite ?length_alter; lia).
    + rewrite !list_insert_ge by (rewrite ?length_alter; lia).
      rewrite list_lookup_alter_eq. by rewrite lookup_ge_None_2 by lia.
  - by rewrite !list_lookup_insert_ne, list_lookup_alter_ne by done.
Qed.

Lemma changeTilesLoop_store _layer _tx tile p :
  forall s vs t buffer,
    Forall2 (readsAs (heap s)) p vs ->
    tileBufferAt (this s) _layer = Some t ->
    _bufferView t = Some buffer ->
    changeTilesLoop _layer _tx tile p s =
    (Normal tt,
     {| this := writtenInPlace (this s) _layer t (writeCells _tx tile buffer vs);
        heap := floorAll p (heap s) |}).
Proof.
  induction p as [|l p IH]; intros s vs t buffer Hvs Ht Hb.
  - apply Forall2_nil_inv_l in Hvs as ->. simpl. unfold ret. f_equal.
    destruct (tileBufferAt_Some _ _ _ Ht) as [Hl Hlk].
    destruct s as [m h]. f_equal. unfold writtenInPlace, setTileBuffer, writeCells. simpl in *.
    rewrite list_insert_id; [by destruct m|].
    rewrite Hlk. f_equal. destruct t; simpl in *. by rewrite Hb.
  - apply Forall2_cons_inv_l in Hvs as (v & vs' & (u & Hu & Hf) & Hvs & ->).
    destruct (tileBufferAt_Some _ _ _ Ht) as [Hl Hlk].
    simpl. unfold bind at 1, readVector, bind at 1, get. rewrite Hu. simpl.
    unfold bind at 1, writeVector, bind at 1, get, put. simpl.
    unfold bind at 1, bind at 1. simpl.
    unfold bind at 1, storeElement, bind at 1, get, put. simpl.
    rewrite (insert_floor_alter _ _ _ Hu).
    match goal with |- context [changeTilesLoop _ _ _ _ ?s1] => set (s1' := s1) end.
    rewrite (IH s1' vs'
               {| _bufferView := Some (typedSet buffer (cellIndex _tx (floorVector u)) tile);
                  width := width t; height := height t |}
               (typedSet buffer (cellIndex _tx (floorVector u)) tile)).
    + f_equal. subst s1'. unfold writtenInPlace, setTileBuffer, writeCells, floorAll. simpl.
      rewrite list_insert_alter_same, Hf. reflexivity.
    + subst s1'. simpl. eapply Forall2_impl; [exact Hvs|].
      intros l' v' Hr. by apply readsAs_alter.
    + subst s1'. unfold tileBufferAt. simpl. rewrite decide_True by lia.
      rewrite list_lookup_alter_eq, Hlk. simpl. by rewrite Hb.
    + reflexivity.
Qed.

Lemma changeTiles_store _layer pos tile s vs t buffer :
  Forall2 (readsAs (heap s)) (positionList pos) vs ->
  tileBufferAt (this s) _layer = Some t ->
  _bufferView t = Some buffer ->
  let _tx := stageX (stageSize (params (this s))) in
  let _ty := stageY (stageSize (params (this s))) in
  changeTiles _layer pos tile s =
  (Normal tt,
   {| this := setTileBuffer (this s) _layer
                (CreateRGBATexture (writeCells _tx tile buffer vs) _tx _ty);
      heap := floorAll (positionList pos) (heap s) |}).
Proof.
  intros Hvs Ht Hb _tx _ty.
  destruct (tileBufferAt_Some _ _ _ Ht) as [Hl Hlk].
  unfold changeTiles, bind at 1, readBuffer, bind at 1, get. rewrite Ht. simpl. rewrite Hb.
  unfold bind at 1, get. unfold bind at 1. rewrite orZero_id. fold _tx.
  change (match pos with One pos0 => [pos0] | Many pos0 => pos0 end) with (positionList pos).
  rewrite (changeTilesLoop_store _layer _tx tile _ s vs t buffer Hvs Ht Hb).
  unfold bind at 1, bind at 1, get. unfold tileBufferAt, writtenInPlace, setTileBuffer.
  cbn [this _tileBuffers params heap]. rewrite decide_True by lia.
  rewrite list_lookup_insert_eq by (eapply lookup_lt_Some; exact Hlk). simpl.
  unfold bind at 1, get, put. simpl. f_equal. f_equal. f_equal.
  rewrite list_insert_insert_eq. unfold _createTileBuffer. by rewrite !orZero_id.
Qed.

(** ** What the stores of [changeTiles] add up to *)

Lemma typedSet_keeps buffer id v k :
  buffer !! k = Some (fround v) -> typedSet buffer id v !! k = Some (fround v).
Proof.
  intros Hk. unfold typedSet. case_decide; [|exact Hk].
  destruct (decide (Z.to_nat id = k)) as [<-|Hne].
  - apply list_lookup_insert_eq. lia.
  - by rewrite list_lookup_insert_ne.
Qed.

Lemma writeCells_keeps _tx tile vs buffer k :
  buffer !! k = Some (fround tile) -> writeCells _tx tile buffer vs !! k = Some (fround tile).
Proof.
  revert buffer. induction vs as [|v vs IH]; intros buffer Hk; [exact Hk|].
  unfold writeCells in *. simpl. apply IH. by apply typedSet_keeps.
Qed.

(** Every position whose index is inside the buffer ends up holding the
    tile. *)
Lemma writeCells_written _tx tile vs buffer v :
  v ∈ vs ->
  0 <= cellIndex _tx (floorVector v) < Z.of_nat (length buffer) ->
  writeCells _tx tile buffer vs !! Z.to_nat (cellIndex _tx (floorVector v)) =
    Some (fround tile).
Proof.
  revert buffer. induction vs as [|v0 vs IH]; intros buffer Hin Hr.
  - by apply elem_of_nil in Hin.
  - unfold writeCells in *. simpl. apply elem_of_cons in Hin as [->|Hin].
    + apply (writeCells_keeps _tx tile vs). by apply typedSet_lookup.
    + apply IH; [exact Hin|]. by rewrite typedSet_length.
Qed.

(** An element that no position addresses keeps its value. *)
Lemma writeCells_untouched _tx tile vs buffer k :
  (forall v, v ∈ vs -> Z.to_nat (cellIndex _tx (floorVector v)) <> k) ->
  writeCells _tx tile buffer vs !! k = buffer !! k.
Proof.
  revert buffer. induction vs as [|v0 vs IH]; intros buffer Hk; [reflexivity|].
  unfold writeCells in *. simpl. rewrite IH.
  - apply typedSet_lookup_ne. intros ->. eapply Hk; [left|reflexivity].
  - intros v Hv. apply Hk. by right.
Qed.

Lemma typedSet_same buffer id v :
  (0 <= id < Z.of_nat (length buffer) -> buffer !! Z.to_nat id = Some (fround v)) ->
  typedSet buffer id v = buffer.
Proof.
  intros H. unfold typedSet. case_decide as Hr; [|reflexivity].
  apply list_insert_id. auto.
Qed.

Lemma writeCells_again _tx tile vs buffer :
  (forall v, v ∈ vs -> 0 <= cellIndex _tx (floorVector v) < Z.of_nat (length buffer) ->
             buffer !! Z.to_nat (cellIndex _tx (floorVector v)) = Some (fround tile)) ->
  writeCells _tx tile buffer vs = buffer.
Proof.
  induction vs as [|v0 vs IH]; intros H; [reflexivity|].
  unfold writeCells in *. simpl. rewrite typedSet_same.
  - apply IH. intros v Hv. apply H. by right.
  - apply H. left.
Qed.

Lemma writeCells_idemp _tx tile vs buffer :
  writeCells _tx tile (writeCells _tx tile buffer vs) vs = writeCells _tx tile buffer vs.
Proof.
  apply writeCells_again. intros v Hv Hr. rewrite writeCells_length in Hr.
  by apply writeCells_written.
Qed.

Lemma floorAll_idemp p h : floorAll p (floorAll p h) = floorAll p h.
Proof.
  apply map_eq. intros l. unfold floorAll. destruct (decide (l ∈ p)) as [Hin|Hnin].
  - rewrite !floorAll_lookup by exact Hin. destruct (h !! l); simpl; [|reflexivity].
    by rewrite floorVector_idemp.
  - by rewrite !floorAll_lookup_other by exact Hnin.
Qed.

Lemma reads_floorAll (h : gmap loc Vector2) p vs :
  Forall2 (fun l v => h !! l = Some v) p vs ->
  Forall2 (readsAs (floorAll p h)) p vs.
Proof.
  intros H. apply Forall2_same_length_lookup. split; [by eapply Forall2_length|].
  intros i l v Hl Hv. pose proof (Forall2_lookup_lr _ _ _ _ _ _ H Hl Hv) as Hlv.
  exists (floorVector v). unfold floorAll.
  rewrite floorAll_lookup by (eapply list_elem_of_lookup_2; exact Hl).
  rewrite Hlv. simpl. by rewrite floorVector_idemp.
Qed.

(** X7: [changeTiles] is idempotent: repeating a call that returned
    normally, with the same (now floored) positions and the same tile,
    changes neither the material nor the caller's positions. *)
Theorem changeTiles_idempotent (s : Store) (_layer : Z) (pos : Positions) (tile : Q)
    (t : RawTexture) (buffer : list Q) :
  tileBufferAt (this s) _layer = Some t ->
  _bufferView t = Some buffer ->
  (forall l, l ∈ positionList pos -> is_Some (heap s !! l)) ->
  let s1 := snd (changeTiles _layer pos tile s) in
  changeTiles _layer pos tile s1 = (Normal tt, s1).
Proof.
  intros Ht Hb Hlive s1.
  destruct (positions_read _ _ Hlive) as [vs Hvs].
  destruct (tileBufferAt_Some _ _ _ Ht) as [Hl Hlk].
  unfold s1. clear s1.
  rewrite (changeTiles_store _layer pos tile s vs t buffer (reads_readsAs _ _ _ Hvs) Ht Hb).
  cbn [snd].
  set (_tx := stageX (stageSize (params (this s)))).
  set (_ty := stageY (stageSize (params (this s)))).
  set (t1 := CreateRGBATexture (writeCells _tx tile buffer vs) _tx _ty).
  set (s1 := {| this := setTileBuffer (this s) _layer t1;
                heap := floorAll (positionList pos) (heap s) |}).
  assert (Ht1 : tileBufferAt (this s1) _layer = Some t1).
  { unfold tileBufferAt, setTileBuffer. simpl. rewrite decide_True by lia.
    apply list_lookup_insert_eq. by eapply lookup_lt_Some. }
  assert (Hvs1 : Forall2 (readsAs (heap s1)) (positionList pos) vs)
    by (simpl; by apply reads_floorAll).
  rewrite (changeTiles_store _layer pos tile s1 vs t1 _ Hvs1 Ht1 eq_refl).
  f_equal. unfold s1, setTileBuffer. cbn [this heap params _tileBuffers _frameBuffer
    _animationBuffer]. fold _tx _ty.
  rewrite list_insert_insert_eq, writeCells_idemp, floorAll_idemp. reflexivity.
Qed.

Lemma changeTiles_idempotent_witness :
  changeTiles 0 (Many [1%positive; 2%positive]) 7
    (snd (changeTiles 0 (Many [1%positive; 2%positive]) 7 smallStore)) =
  (Normal tt, snd (changeTiles 0 (Many [1%positive; 2%positive]) 7 smallStore)).
Proof.
  apply (changeTiles_idempotent smallStore 0 (Many [1%positive; 2%positive]) 7
           (CreateRGBATexture [1; 0; 0; 0; 1; 0; 0; 0; 1; 0; 0; 0; 1; 0; 0; 0]%Q 2 2)
           [1; 0; 0; 0; 1; 0; 0; 0; 1; 0; 0; 0; 1; 0; 0; 0]%Q).
  - reflexivity.
  - reflexivity.
  - intros l Hl. simpl in Hl. rewrite !elem_of_cons, elem_of_nil in Hl.
    destruct Hl as [->|[->|[]]]; eexists; reflexivity.
Defined.

Lemma tile_fetch (t : RawTexture) (w h cx cy : Z) :
  width t = w -> height t = h -> 0 < w -> 0 < h ->
  Glsl.texture2D t
    (Glsl.mkVec2 ((inject_Z cx + (1 # 2)) / inject_Z w)
                 ((inject_Z cy + (1 # 2)) / inject_Z h)) =
  Glsl.texel t cx cy.
Proof.
  intros <- <- Hw Hh. unfold Glsl.texture2D. cbn [Glsl.x2 Glsl.y2].
  by rewrite !sprite_column.
Qed.

Lemma cellIndex_floorVector _tx v :
  cellIndex _tx (floorVector v) = (Qfloor (y v) * _tx + Qfloor (x v)) * 4 + 0.
Proof. unfold cellIndex, floorVector, floor. cbn [x y]. rewrite !Qfloor_Z. lia. Qed.

Lemma reads_elem_of (h : gmap loc Vector2) p vs l v :
  Forall2 (fun l v => h !! l = Some v) p vs -> l ∈ p -> h !! l = Some v -> v ∈ vs.
Proof.
  intros H Hl Hv. apply list_elem_of_lookup_1 in Hl as [i Hi].
  destruct (Forall2_lookup_l _ _ _ _ _ H Hi) as (v' & Hv' & Hlv).
  rewrite Hv in Hlv. injection Hlv as ->. eapply list_elem_of_lookup_2; eauto.
Qed.

Lemma changeTiles_sample (s : Store) (_layer : Z) (pos : Positions) (tile : Q)
    (l : loc) (v : Vector2) (time : Q) (spriteMapSize : Glsl.vec2)
    (spriteDiffuse : Glsl.vec2 -> Glsl.vec4) (unassigned : Q) :
  wellFormed (this s) ->
  0 <= _layer < layerCount (params (this s)) ->
  (forall l, l ∈ positionList pos -> is_Some (heap s !! l)) ->
  l ∈ positionList pos -> heap s !! l = Some v ->
  inGrid (stageSize (params (this s))) v ->
  let s' := snd (changeTiles _layer pos tile s) in
  Shader.layerSample (shaderInputs (this s') time spriteMapSize spriteDiffuse unassigned)
    _layer (Glsl.mkVec2 (floor (x v)) (floor (y v))) = fround tile.
Proof.
  intros (Hx & Hy & _ & _ & _ & Hn & Htb) HL Hlive Hl Hv [Hgx Hgy] s'.
  destruct (positions_read _ _ Hlive) as [vs Hvs].
  assert (Hlt : (Z.to_nat _layer < length (_tileBuffers (this s)))%nat) by lia.
  apply lookup_lt_is_Some_2 in Hlt as [t Hlk].
  destruct (Forall_lookup_1 _ _ _ _ Htb Hlk) as (Hw & Hh & buffer & Hb & Hlen).
  assert (Ht : tileBufferAt (this s) _layer = Some t)
    by (unfold tileBufferAt; rewrite decide_True by lia; exact Hlk).
  unfold s'. clear s'.
  rewrite (changeTiles_store _layer pos tile s vs t buffer (reads_readsAs _ _ _ Hvs) Ht Hb).
  cbn [snd this].
  set (_tx := stageX (stageSize (params (this s)))) in *.
  set (_ty := stageY (stageSize (params (this s)))) in *.
  unfold Shader.layerSample, shaderInputs, setTileBuffer.
  cbn [Shader.LAYERS Shader.tileBuffers Shader.stageSize params _tileBuffers Glsl.x2 Glsl.y2].
  rewrite decide_True by lia.
  rewrite list_lookup_insert_eq by (eapply lookup_lt_Some; exact Hlk).
  fold _tx _ty. unfold floor.
  set (t1 := CreateRGBATexture (writeCells _tx tile buffer vs) _tx _ty).
  rewrite (tile_fetch t1 _tx _ty) by (reflexivity || lia).
  rewrite texel_inside by (cbn [width height t1 CreateRGBATexture]; lia). cbv zeta.
  cbn [width height _bufferView t1 CreateRGBATexture nullish Glsl.x4].
  rewrite <- cellIndex_floorVector.
  rewrite writeCells_written; [reflexivity | by eapply reads_elem_of |].
  rewrite cellIndex_floorVector. nia.
Qed.

(** X8: after [changeTiles], the sampler's tile lookup on that layer, at
    the tile of any position of the call that lies inside the stage,
    yields the new tile, as single precision holds it. *)
Theorem changeTiles_then_sample (s : Store) (_layer : Z) (pos : Positions) (tile : Q)
    (l : loc) (v : Vector2) (time : Q) (spriteMapSize : Glsl.vec2)
    (spriteDiffuse : Glsl.vec2 -> Glsl.vec4) (unassigned : Q) :
  wellFormed (this s) ->
  0 <= _layer < layerCount (params (this s)) ->
  (forall l, l ∈ positionList pos -> is_Some (heap s !! l)) ->
  l ∈ positionList pos -> heap s !! l = Some v ->
  inGrid (stageSize (params (this s))) v ->
  let s' := snd (changeTiles _layer pos tile s) in
  Shader.layerSample (shaderInputs (this s') time spriteMapSize spriteDiffuse unassigned)
    _layer (Glsl.mkVec2 (floor (x v)) (floor (y v))) = fround tile.
Proof.
  exact (changeTiles_sample s _layer pos tile l v time spriteMapSize spriteDiffuse unassigned).
Qed.

Lemma changeTiles_then_sample_witness :
  Shader.layerSample
    (shaderInputs (this (snd (changeTiles 1 (One 1%positive) 1 smallStore))) 0
       (Glsl.mkVec2 32 32) coordinateImage 0)
    1 (Glsl.mkVec2 (floor (3 # 2)) (floor (1 # 3))) = 1%Q.
Proof.
  apply (changeTiles_then_sample smallStore 1 (One 1%positive) 1 1%positive
           (mkVector2 (3 # 2) (1 # 3)) 0 (Glsl.mkVec2 32 32) coordinateImage 0
           smallMaterial_wellFormed).
  - vm_compute. split; [discriminate | reflexivity].
  - intros l Hl. simpl in Hl. rewrite elem_of_cons, elem_of_nil in Hl.
    destruct Hl as [->|[]]. eexists. reflexivity.
  - simpl. left.
  - reflexivity.
  - vm_compute. repeat split; discriminate.
Defined.

(** X27: a sprite index survives the store: for a whole tile number of
    magnitude up to [2 ^ 24], the lookup after [changeTiles] yields the
    very number that was passed. *)
Theorem changeTiles_sprite_index (s : Store) (_layer : Z) (pos : Positions) (tile : Z)
    (l : loc) (v : Vector2) (time : Q) (spriteMapSize : Glsl.vec2)
    (spriteDiffuse : Glsl.vec2 -> Glsl.vec4) (unassigned : Q) :
  wellFormed (this s) ->
  0 <= _layer < layerCount (params (this s)) ->
  (forall l, l ∈ positionList pos -> is_Some (heap s !! l)) ->
  l ∈ positionList pos -> heap s !! l = Some v ->
  inGrid (stageSize (params (this s))) v ->
  Z.abs tile <= 2 ^ 24 ->
  let s' := snd (changeTiles _layer pos (inject_Z tile) s) in
  Shader.layerSample (shaderInputs (this s') time spriteMapSize spriteDiffuse unassigned)
    _layer (Glsl.mkVec2 (floor (x v)) (floor (y v))) = inject_Z tile.
Proof.
  intros Hwf HL Hlive Hl Hv Hg Htile s'. unfold s'.
  rewrite (changeTiles_sample s _layer pos (inject_Z tile) l v time spriteMapSize
             spriteDiffuse unassigned Hwf HL Hlive Hl Hv Hg).
  by apply fround_whole.
Qed.

Lemma changeTiles_sprite_index_witness :
  Shader.layerSample
    (shaderInputs (this (snd (changeTiles 1 (One 1%positive) (inject_Z 16777216) smallStore)))
       0 (Glsl.mkVec2 32 32) coordinateImage 0)
    1 (Glsl.mkVec2 (floor (3 # 2)) (floor (1 # 3))) = inject_Z 16777216.
Proof.
  apply (changeTiles_sprite_index smallStore 1 (One 1%positive) 16777216 1%positive
           (mkVector2 (3 # 2) (1 # 3)) 0 (Glsl.mkVec2 32 32) coordinateImage 0
           smallMaterial_wellFormed).
  - vm_compute. split; [discriminate | reflexivity].
  - intros l Hl. simpl in Hl. rewrite elem_of_cons, elem_of_nil in Hl.
    destruct Hl as [->|[]]. eexists. reflexivity.
  - simpl. left.
  - reflexivity.
  - vm_compute. repeat split; discriminate.
  - vm_compute. discriminate.
Defined.

(** X9: [changeTiles] writes nothing but the first channel of the cells
    its positions address: the new grid has the size of the old one, its
    three reserved channels are those of the old one, and so is every
    element that is not the flat index of a position. *)
Theorem changeTiles_keeps_the_rest (s : Store) (_layer : Z) (pos : Positions) (tile : Q)
    (t : RawTexture) (buffer : list Q) (vs : list Vector2) :
  tileBufferAt (this s) _layer = Some t ->
  _bufferView t = Some buffer ->
  Forall2 (fun l v => heap s !! l = Some v) (positionList pos) vs ->
  let _tx := stageX (stageSize (params (this s))) in
  exists buffer',
    _bufferView <$> tileBufferAt (this (snd (changeTiles _layer pos tile s))) _layer =
      Some (Some buffer') /\
    length buffer' = length buffer /\
    (forall k, (k mod 4 <> 0)%nat -> buffer' !! k = buffer !! k) /\
    (forall k, (forall v, v ∈ vs -> Z.to_nat (cellIndex _tx (floorVector v)) <> k) ->
               buffer' !! k = buffer !! k).
Proof.
  intros Ht Hb Hvs _tx.
  destruct (tileBufferAt_Some _ _ _ Ht) as [Hl Hlk].
  rewrite (changeTiles_store _layer pos tile s vs t buffer (reads_readsAs _ _ _ Hvs) Ht Hb).
  cbn [snd this]. fold _tx.
  exists (writeCells _tx tile buffer vs). split; [|split; [|split]].
  - unfold tileBufferAt, setTileBuffer. cbn [_tileBuffers]. rewrite decide_True by lia.
    by rewrite list_lookup_insert_eq by (eapply lookup_lt_Some; exact Hlk).
  - apply writeCells_length.
  - intros k Hk. apply writeCells_untouched. intros v _ Heq.
    rewrite cellIndex_floorVector in Heq. apply Hk. rewrite <- Heq.
    destruct (Z_lt_le_dec ((Qfloor (y v) * _tx + Qfloor (x v)) * 4 + 0) 0) as [Hneg|Hpos].
    + replace (Z.to_nat ((Qfloor (y v) * _tx + Qfloor (x v)) * 4 + 0)) with 0%nat by lia.
      reflexivity.
    + replace (Z.to_nat ((Qfloor (y v) * _tx + Qfloor (x v)) * 4 + 0))
        with (Z.to_nat (Qfloor (y v) * _tx + Qfloor (x v)) * 4)%nat by lia.
      apply Nat.Div0.mod_mul.
  - intros k Hk. by apply writeCells_untouched.
Qed.

Lemma changeTiles_keeps_the_rest_witness :
  exists buffer',
    _bufferView <$> tileBufferAt
      (this (snd (changeTiles 0 (Many [1%positive; 2%positive]) 7 smallStore))) 0 =
      Some (Some buffer') /\
    length buffer' = 16%nat /\
    (forall k, (k mod 4 <> 0)%nat ->
       buffer' !! k = [1; 0; 0; 0; 1; 0; 0; 0; 1; 0; 0; 0; 1; 0; 0; 0]%Q !! k) /\
    (forall k, (forall v, v ∈ [mkVector2 (3 # 2) (1 # 3); mkVector2 (5 # 2) (1 # 3)] ->
                          Z.to_nat (cellIndex 2 (floorVector v)) <> k) ->
       buffer' !! k = [1; 0; 0; 0; 1; 0; 0; 0; 1; 0; 0; 0; 1; 0; 0; 0]%Q !! k).
Proof.
  apply (changeTiles_keeps_the_rest smallStore 0 (Many [1%positive; 2%positive]) 7
           (CreateRGBATexture [1; 0; 0; 0; 1; 0; 0; 0; 1; 0; 0; 0; 1; 0; 0; 0]%Q 2 2)
           [1; 0; 0; 0; 1; 0; 0; 0; 1; 0; 0; 0; 1; 0; 0; 0]%Q
           [mkVector2 (3 # 2) (1 # 3); mkVector2 (5 # 2) (1 # 3)]).
  - reflexivity.
  - reflexivity.
  - repeat constructor.
Defined.

(** ** When [changeTiles] stops half-way *)

Lemma bind_match {S A B} (m : Eff S A) (k : A -> Eff S B) (s : S) :
  bind m k s =
  match m s with
  | (Normal a, s') => k a s'
  | (Throw e, s') => (Throw e, s')
  end.
Proof. reflexivity. Qed.

Lemma changeTilesLoop_app _layer _tx tile p q s :
  changeTilesLoop _layer _tx tile (p ++ q) s =
  match changeTilesLoop _layer _tx tile p s with
  | (Normal _, s') => changeTilesLoop _layer _tx tile q s'
  | (Throw e, s') => (Throw e, s')
  end.
Proof.
  revert s. induction p as [|l p IH]; intros s; [reflexivity|].
  cbn [app changeTilesLoop]. rewrite !bind_match.
  destruct (readVector l s) as [[_p|e] s0]; [|reflexivity].
  rewrite !bind_match. destruct (writeVector l _ s0) as [[[]|e] s1]; [|reflexivity].
  rewrite !bind_match. destruct (writeVector l _ s1) as [[[]|e] s2]; [|reflexivity].
  rewrite !bind_match. destruct (storeElement _ _ _ s2) as [[[]|e] s3]; [|reflexivity].
  apply IH.
Qed.

(** X10: [changeTiles] is not atomic.  When an element of the array is
    not an object, the positions before it have already been floored and
    their cells stored in the live buffer view; the [TypeError] leaves
    them so, and the texture of the layer is not rebuilt. *)
Theorem changeTiles_stops_half_way (s : Store) (_layer : Z) (p1 p2 : list loc)
    (bad : loc) (tile : Q) (t : RawTexture) (buffer : list Q) (vs1 : list Vector2) :
  tileBufferAt (this s) _layer = Some t ->
  _bufferView t = Some buffer ->
  Forall2 (fun l v => heap s !! l = Some v) p1 vs1 ->
  heap s !! bad = None ->
  let _tx := stageX (stageSize (params (this s))) in
  changeTiles _layer (Many (p1 ++ bad :: p2)) tile s =
  (Throw TypeError,
   {| this := writtenInPlace (this s) _layer t (writeCells _tx tile buffer vs1);
      heap := floorAll p1 (heap s) |}).
Proof.
  intros Ht Hb Hvs Hbad _tx.
  assert (Hnin : bad ∉ p1).
  { intros Hin. apply list_elem_of_lookup_1 in Hin as [i Hi].
    destruct (Forall2_lookup_l _ _ _ _ _ Hvs Hi) as (v & _ & Hv). congruence. }
  unfold changeTiles, bind at 1, readBuffer, bind at 1, get. rewrite Ht. simpl. rewrite Hb.
  unfold bind at 1, get. unfold bind at 1. rewrite orZero_id. fold _tx.
  rewrite changeTilesLoop_app.
  rewrite (changeTilesLoop_store _layer _tx tile p1 s vs1 t buffer (reads_readsAs _ _ _ Hvs) Ht Hb).
  simpl. unfold bind at 1, readVector, bind at 1, get. cbn [heap].
  unfold floorAll at 1. rewrite floorAll_lookup_other by exact Hnin. rewrite Hbad.
  reflexivity.
Qed.

Lemma changeTiles_stops_half_way_witness :
  changeTiles 0 (Many [1%positive; 2%positive; 1%positive]) 7 brokenStore =
  (Throw TypeError,
   {| this := writtenInPlace smallMaterial 0
                (CreateRGBATexture [1; 0; 0; 0; 1; 0; 0; 0; 1; 0; 0; 0; 1; 0; 0; 0]%Q 2 2)
                (writeCells 2 7 [1; 0; 0; 0; 1; 0; 0; 0; 1; 0; 0; 0; 1; 0; 0; 0]%Q
                   [mkVector2 (3 # 2) (3 # 2)]);
      heap := floorAll [1%positive] (heap brokenStore) |}).
Proof.
  apply (changeTiles_stops_half_way brokenStore 0 [1%positive] [1%positive] 2%positive 7
           (CreateRGBATexture [1; 0; 0; 0; 1; 0; 0; 0; 1; 0; 0; 0; 1; 0; 0; 0]%Q 2 2)
           [1; 0; 0; 0; 1; 0; 0; 0; 1; 0; 0; 0; 1; 0; 0; 0]%Q
           [mkVector2 (3 # 2) (3 # 2)]).
  - reflexivity.
  - reflexivity.
  - repeat constructor.
  - reflexivity.
Defined.

(** ** What [changeTiles] leaves alone, however it ends *)

Lemma changeTilesLoop_invariant (P : Store -> Prop) _layer _tx tile p :
  (forall s l v, l ∈ p -> P s -> P {| this := this s; heap := <[l := v]> (heap s) |}) ->
  (forall s id, P s -> P (snd (storeElement _layer id tile s))) ->
  forall s, P s -> P (snd (changeTilesLoop _layer _tx tile p s)).
Proof.
  intros Hvec Hstore.
  assert (H : forall q, (forall l, l ∈ q -> l ∈ p) ->
                forall s, P s -> P (snd (changeTilesLoop _layer _tx tile q s))).
  { induction q as [|l q IH]; intros Hq s Hs; [exact Hs|].
    simpl. unfold bind at 1, readVector, bind at 1, get.
    destruct (heap s !! l) as [u|]; [|exact Hs]. simpl.
    unfold bind at 1, writeVector, bind at 1, get, put. simpl.
    unfold bind at 1, bind at 1. simpl.
    unfold bind at 1.
    assert (Hl : l ∈ p) by (apply Hq; left).
    pose proof (Hvec s l {| x := floor (x u); y := y u |} Hl Hs) as H1.
    pose proof (Hvec _ l {| x := floor (x u); y := floor (y u) |} Hl H1) as H2.
    cbn [this heap] in H2.
    match goal with |- context [storeElement _ ?id _ ?s1] =>
      pose proof (Hstore s1 id H2) as Hst;
      destruct (storeElement _layer id tile s1) as [[[]|e] s2]
    end.
    - apply IH; [intros l' Hl'; apply Hq; by right|]. exact Hst.
    - exact Hst. }
  apply H. auto.
Qed.

Lemma changeTiles_invariant (P : Store -> Prop) _layer pos tile :
  (forall s l v, l ∈ positionList pos -> P s ->
                 P {| this := this s; heap := <[l := v]> (heap s) |}) ->
  (forall s id, P s -> P (snd (storeElement _layer id tile s))) ->
  (forall s t, tileBufferAt (this s) _layer = Some t -> P s ->
               P {| this := setTileBuffer (this s) _layer
                              (_createTileBuffer (params (this s)) (_bufferView t) 0);
                    heap := heap s |}) ->
  forall s, P s -> P (snd (changeTiles _layer pos tile s)).
Proof.
  intros Hvec Hstore Hswap s Hs.
  unfold changeTiles, bind at 1, readBuffer, bind at 1, get.
  destruct (tileBufferAt (this s) _layer) as [t|]; [|exact Hs]. simpl.
  destruct (_bufferView t); [|exact Hs].
  unfold bind at 1, get. unfold bind at 1.
  change (match pos with One pos0 => [pos0] | Many pos0 => pos0 end) with (positionList pos).
  pose proof (changeTilesLoop_invariant P _layer
                (orZero (stageX (stageSize (params (this s))))) tile (positionList pos)
                Hvec Hstore s Hs) as Hloop.
  destruct (changeTilesLoop _ _ _ _ s) as [[[]|e] s1]; [|exact Hloop]. simpl in Hloop.
  unfold bind at 1, bind at 1, get.
  destruct (tileBufferAt (this s1) _layer) as [t1|] eqn:Ht1; [|exact Hloop].
  unfold bind, get, put, ret. simpl. by apply Hswap.
Qed.

Lemma changedAtMost_refl _layer p s : changedAtMost _layer p s s.
Proof. by repeat split. Qed.

(** X11: however a call of [changeTiles] ends (normally, at the guard,
    or with a [TypeError]), the parameters, the frame table, the
    animation table, the number of layers, the grids of the other layers
    and every object that is not among the positions are as before. *)
Theorem changeTiles_changes_at_most (s : Store) (_layer : Z) (pos : Positions) (tile : Q) :
  changedAtMost _layer (positionList pos) s (snd (changeTiles _layer pos tile s)).
Proof.
  apply (changeTiles_invariant (changedAtMost _layer (positionList pos) s)).
  - intros s1 l v Hl (Hp & Hf & Ha & Hn & Hk & Hh). unfold changedAtMost. cbn [this heap].
    repeat split; try assumption.
    intros l' Hl'. rewrite lookup_insert_ne by (intros ->; contradiction).
    by apply Hh.
  - intros s1 id (Hp & Hf & Ha & Hn & Hk & Hh).
    unfold changedAtMost, storeElement, bind, get, put.
    cbn [snd this heap params _frameBuffer _animationBuffer _tileBuffers].
    repeat split; try assumption.
    + by rewrite length_alter.
    + intros k Hne. rewrite list_lookup_alter_ne by done. by apply Hk.
  - intros s1 t Ht (Hp & Hf & Ha & Hn & Hk & Hh).
    unfold changedAtMost, setTileBuffer.
    cbn [this heap params _frameBuffer _animationBuffer _tileBuffers].
    repeat split; try assumption.
    + by rewrite length_insert.
    + intros k Hne. rewrite list_lookup_insert_ne by done. by apply Hk.
  - apply changedAtMost_refl.
Qed.

Lemma holdsTexels_typedSet t w h id v :
  holdsTexels t w h ->
  holdsTexels {| _bufferView := (fun buffer => typedSet buffer id v) <$> _bufferView t;
                 width := width t; height := height t |} w h.
Proof.
  intros (Hw & Hh & data & Hd & Hlen). unfold holdsTexels. cbn [width height _bufferView].
  split; [exact Hw|]. split; [exact Hh|]. rewrite Hd. simpl.
  eexists. split; [reflexivity|]. by rewrite typedSet_length.
Qed.

(** X12: however a call of [changeTiles] ends, the buffers keep their
    shape: a well-formed material stays well-formed. *)
Theorem changeTiles_wellFormed (s : Store) (_layer : Z) (pos : Positions) (tile : Q) :
  wellFormed (this s) ->
  wellFormed (this (snd (changeTiles _layer pos tile s))).
Proof.
  apply (changeTiles_invariant (fun s => wellFormed (this s))).
  - intros s1 l v _ H. exact H.
  - intros s1 id (Hx & Hy & Hmax & Hfb & Hab & Hn & Htb).
    unfold storeElement, bind, get, put, wellFormed.
    cbn [snd this params _frameBuffer _animationBuffer _tileBuffers].
    repeat (split; [assumption|]). split; [by rewrite length_alter|].
    apply Forall_alter; [exact Htb|]. intros t _ Ht. by apply holdsTexels_typedSet.
  - intros s1 t Ht (Hx & Hy & Hmax & Hfb & Hab & Hn & Htb).
    destruct (tileBufferAt_Some _ _ _ Ht) as [Hl Hlk].
    destruct (Forall_lookup_1 _ _ _ _ Htb Hlk) as (Hw & Hh & data & Hd & Hlen).
    unfold setTileBuffer, wellFormed.
    cbn [this params _frameBuffer _animationBuffer _tileBuffers].
    repeat (split; [assumption|]). split; [by rewrite length_insert|].
    apply Forall_insert; [exact Htb|].
    rewrite Hd. unfold _createTileBuffer, holdsTexels. rewrite !orZero_id.
    cbn [width height _bufferView CreateRGBATexture].
    split; [reflexivity|]. split; [reflexivity|]. exists data. auto.
Qed.

Lemma changeTiles_wellFormed_witness :
  wellFormed (this (snd (changeTiles 0 (Many [1%positive; 2%positive]) 7 smallStore))).
Proof.
  exact (changeTiles_wellFormed smallStore 0 (Many [1%positive; 2%positive]) 7
           smallMaterial_wellFormed).
Defined.

(** ** The order of the positions *)

Lemma foldl_permutation_comm {A B} (f : A -> B -> A) :
  (forall a x y, f (f a x) y = f (f a y) x) ->
  forall l1 l2, l1 ≡ₚ l2 -> forall a, foldl f a l1 = foldl f a l2.
Proof.
  intros Hcomm l1 l2 Hperm.
  induction Hperm as [|x l1 l2 _ IH|x y l|l1 l2 l3 _ IH1 _ IH2]; intros a; simpl.
  - reflexivity.
  - apply IH.
  - by rewrite Hcomm.
  - by rewrite IH1, IH2.
Qed.

Lemma typedSet_comm buffer i j v :
  typedSet (typedSet buffer i v) j v = typedSet (typedSet buffer j v) i v.
Proof.
  apply list_eq. intros k. rewrite !typedSet_lookup_cases, !typedSet_length.
  repeat case_decide; subst; reflexivity || tauto.
Qed.

Lemma alter_floor_comm (h : gmap loc Vector2) a b :
  alter floorVector b (alter floorVector a h) = alter floorVector a (alter floorVector b h).
Proof.
  apply map_eq. intros l. rewrite !lookup_alter.
  repeat case_decide; subst; reflexivity || congruence.
Qed.

Lemma reads_default (h : gmap loc Vector2) (p : list loc) :
  (forall l, l ∈ p -> is_Some (h !! l)) ->
  Forall2 (fun l v => h !! l = Some v) p
    ((fun l => default (mkVector2 0 0) (h !! l)) <$> p).
Proof.
  intros Hlive. apply Forall2_fmap_r, Forall_Forall2_diag, Forall_forall.
  intros l Hl. destruct (Hlive l Hl) as [v Hv]. unfold compose. rewrite Hv. reflexivity.
Qed.

(** X21: the order of the positions does not matter: two calls of
    [changeTiles] whose arrays hold the same positions in a different
    order end in the same store. *)
Theorem changeTiles_order_irrelevant (s : Store) (_layer : Z) (p p' : list loc)
    (tile : Q) (t : RawTexture) (buffer : list Q) :
  tileBufferAt (this s) _layer = Some t ->
  _bufferView t = Some buffer ->
  (forall l, l ∈ p -> is_Some (heap s !! l)) ->
  p ≡ₚ p' ->
  changeTiles _layer (Many p) tile s = changeTiles _layer (Many p') tile s.
Proof.
  intros Ht Hb Hlive Hperm.
  assert (Hlive' : forall l, l ∈ p' -> is_Some (heap s !! l))
    by (intros l Hl; apply Hlive; by rewrite Hperm).
  rewrite (changeTiles_store _layer (Many p) tile s _ t buffer
             (reads_readsAs _ _ _ (reads_default _ _ Hlive)) Ht Hb).
  rewrite (changeTiles_store _layer (Many p') tile s _ t buffer
             (reads_readsAs _ _ _ (reads_default _ _ Hlive')) Ht Hb).
  cbn [positionList]. f_equal. f_equal.
  - do 2 f_equal. unfold writeCells. apply foldl_permutation_comm.
    + intros b v1 v2. apply typedSet_comm.
    + by apply fmap_Permutation.
  - unfold floorAll. apply foldl_permutation_comm; [|exact Hperm].
    intros h a b. apply alter_floor_comm.
Qed.

Lemma changeTiles_order_irrelevant_witness :
  changeTiles 0 (Many [1%positive; 2%positive]) 7 smallStore =
  changeTiles 0 (Many [2%positive; 1%positive]) 7 smallStore.
Proof.
  apply (changeTiles_order_irrelevant smallStore 0 [1%positive; 2%positive]
           [2%positive; 1%positive] 7
           (CreateRGBATexture [1; 0; 0; 0; 1; 0; 0; 0; 1; 0; 0; 0; 1; 0; 0; 0]%Q 2 2)
           [1; 0; 0; 0; 1; 0; 0; 0; 1; 0; 0; 0; 1; 0; 0; 0]%Q).
  - reflexivity.
  - reflexivity.
  - intros l Hl. rewrite !elem_of_cons, elem_of_nil in Hl.
    destruct Hl as [->|[->|[]]]; eexists; reflexivity.
  - apply perm_swap.
Defined.

(** ** Indices that fall into a neighbouring row *)

(** X25: the flat index does not know the width of a row: a position
    one stage width to the right of a cell writes the cell one row
    below it. *)
Theorem changeTiles_wraps_rows (m : SpriteMapMaterial) (_layer : Z) (l : loc)
    (v1 v2 : Vector2) (tile : Q) (t : RawTexture) (buffer : list Q) :
  tileBufferAt m _layer = Some t ->
  _bufferView t = Some buffer ->
  Qfloor (x v1) = Qfloor (x v2) + stageX (stageSize (params m)) ->
  Qfloor (y v1) + 1 = Qfloor (y v2) ->
  this (snd (changeTiles _layer (One l) tile {| this := m; heap := {[ l := v1 ]} |})) =
  this (snd (changeTiles _layer (One l) tile {| this := m; heap := {[ l := v2 ]} |})).
Proof.
  intros Ht Hb Hx Hy.
  assert (H1 : Forall2 (readsAs ({[ l := v1 ]} : gmap loc Vector2)) [l] [v1]).
  { repeat constructor. exists v1. by rewrite lookup_singleton_eq. }
  assert (H2 : Forall2 (readsAs ({[ l := v2 ]} : gmap loc Vector2)) [l] [v2]).
  { repeat constructor. exists v2. by rewrite lookup_singleton_eq. }
  rewrite (changeTiles_store _layer (One l) tile (mkStore m {[ l := v1 ]}) [v1] t buffer H1 Ht Hb).
  rewrite (changeTiles_store _layer (One l) tile (mkStore m {[ l := v2 ]}) [v2] t buffer H2 Ht Hb).
  cbv zeta. cbn [snd this]. do 2 f_equal. unfold writeCells. cbn [foldl]. f_equal.
  rewrite !cellIndex_floorVector. lia.
Qed.

Lemma changeTiles_wraps_rows_witness :
  this (snd (changeTiles 0 (One 1%positive) 7
               {| this := smallMaterial; heap := {[ 1%positive := mkVector2 (5 # 2) (1 # 3) ]} |})) =
  this (snd (changeTiles 0 (One 1%positive) 7
               {| this := smallMaterial; heap := {[ 1%positive := mkVector2 (1 # 2) (4 # 3) ]} |})).
Proof.
  apply (changeTiles_wraps_rows smallMaterial 0 1%positive (mkVector2 (5 # 2) (1 # 3))
           (mkVector2 (1 # 2) (4 # 3)) 7
           (CreateRGBATexture [1; 0; 0; 0; 1; 0; 0; 0; 1; 0; 0; 0; 1; 0; 0; 0]%Q 2 2)
           [1; 0; 0; 0; 1; 0; 0; 0; 1; 0; 0; 0; 1; 0; 0; 0]%Q); reflexivity.
Defined.

(** X26: likewise in the animation table: sprite index [cellID +
    spriteCount] in slot [frame] is sprite [cellID] in slot [frame + 1];
    the two calls do the same. *)
Theorem addAnimationToTile_wraps_slots (m : SpriteMapMaterial) (cellID _frame : Z)
    (toCell time speed : Q) :
  addAnimationToTile (cellID + spriteCount (params m)) _frame toCell time speed m =
  addAnimationToTile cellID (_frame + 1) toCell time speed m.
Proof.
  unfold addAnimationToTile, bind, get.
  replace ((cellID + spriteCount (params m)) * 4 + spriteCount (params m) * 4 * _frame)
    with (cellID * 4 + spriteCount (params m) * 4 * (_frame + 1)) by lia.
  reflexivity.
Qed.

(** * Further properties of the sampler *)

(** ** The animation scan *)

Lemma animationLoop_hits (U : Shader.Inputs) (sc A k : Z) (mt : Q) :
  animationBound U sc ->
  (mt < Glsl.y4 (slot U A k))%Q ->
  forall (n : nat) (k0 : Z) (f : Q) (animationData : Glsl.vec4),
    (f == inject_Z k0)%Q -> 0 <= k0 <= k -> k - k0 + 2 <= Z.of_nat n ->
    (Glsl.y4 animationData <= mt)%Q ->
    (forall j, k0 <= j < k -> (Glsl.y4 (slot U A j) <= mt)%Q) ->
    Shader.animationLoop U n f mt (inject_Z A) animationData = Glsl.x4 (slot U A k).
Proof.
  intros (HMAX & Hsc & Hcount & Hw & Hh) Hhit.
  induction n as [|n IH]; intros k0 f ad Hf Hk Hn Had Hmiss; [lia|].
  cbn [Shader.animationLoop]. apply gt_false in Had. rewrite Had.
  rewrite (fetch_slot U sc A ltac:(lia) Hsc Hcount Hw Hh k0 f Hf). fold (slot U A k0).
  destruct (Z.eq_dec k0 k) as [->|Hne].
  - destruct n as [|n]; [lia|]. cbn [Shader.animationLoop].
    apply gt_true in Hhit. by rewrite Hhit.
  - apply (IH (k0 + 1)).
    + rewrite Hf, inject_Z_plus. reflexivity.
    + lia.
    + lia.
    + apply Hmiss. lia.
    + intros j Hj. apply Hmiss. lia.
Qed.

Lemma animationLoop_misses (U : Shader.Inputs) (sc A : Z) (mt : Q) :
  animationBound U sc ->
  forall (n : nat) (k0 : Z) (f : Q) (animationData : Glsl.vec4),
    (f == inject_Z k0)%Q ->
    (Glsl.y4 animationData <= mt)%Q ->
    (forall j, k0 <= j -> j + 2 <= k0 + Z.of_nat n -> (Glsl.y4 (slot U A j) <= mt)%Q) ->
    Shader.animationLoop U n f mt (inject_Z A) animationData = inject_Z A.
Proof.
  intros (HMAX & Hsc & Hcount & Hw & Hh).
  induction n as [|n IH]; intros k0 f ad Hf Had Hmiss; [reflexivity|].
  cbn [Shader.animationLoop]. apply gt_false in Had. rewrite Had.
  rewrite (fetch_slot U sc A ltac:(lia) Hsc Hcount Hw Hh k0 f Hf). fold (slot U A k0).
  destruct n as [|n]; [reflexivity|].
  apply (IH (k0 + 1)).
  - rewrite Hf, inject_Z_plus. reflexivity.
  - apply Hmiss; lia.
  - intros j Hj1 Hj2. apply Hmiss; lia.
Qed.

(** X13: for a sprite whose slot 0 has a positive hold fraction, the
    scan shows the next-sprite of the first slot whose hold fraction
    exceeds [mt = mod(time * speed, 1)], [speed] being that of slot 0;
    the slots it looks at are all but the last one. *)
Theorem animation_first_hit (U : Shader.Inputs) (sc A k : Z) :
  animationBound U sc ->
  0 <= A < sc ->
  (0 < Glsl.y4 (slot U A 0))%Q ->
  let mt := Glsl.mod_ (Shader.time U * Glsl.z4 (slot U A 0)) 1 in
  scanned U k ->
  (forall j, 0 <= j < k -> (Glsl.y4 (slot U A j) <= mt)%Q) ->
  (mt < Glsl.y4 (slot U A k))%Q ->
  Shader.resolveAnimation U (inject_Z A) = Glsl.x4 (slot U A k).
Proof.
  intros Hbound HA Hpos mt Hk Hmiss Hhit.
  pose proof Hbound as (HMAX & Hsc & Hcount & Hw & Hh).
  unfold Shader.resolveAnimation.
  rewrite (fetch_slot_0 U sc A Hsc Hcount Hw Hh). fold (slot U A 0).
  apply gt_true in Hpos. rewrite Hpos. cbv zeta. fold mt.
  destruct (Z.eq_dec k 0) as [->|Hne].
  - destruct (Z.to_nat (Shader.MAX_ANIMATION_FRAMES U)) as [|n] eqn:Hn; [lia|].
    cbn [Shader.animationLoop]. apply gt_true in Hhit. by rewrite Hhit.
  - destruct Hk as [?|[Hk0 Hk2]]; [contradiction|].
    apply (animationLoop_hits U sc A k mt Hbound Hhit _ 0).
    + reflexivity.
    + lia.
    + lia.
    + apply Hmiss. lia.
    + exact Hmiss.
Qed.

Lemma animation_first_hit_witness :
  Shader.resolveAnimation (chainedInputs (3 # 8)) 0 = 1%Q.
Proof.
  refine (animation_first_hit (chainedInputs (3 # 8)) 2 0 1 _ _ _ _ _ _).
  - repeat split; vm_compute; congruence.
  - lia.
  - reflexivity.
  - right. simpl. lia.
  - intros j Hj. assert (j = 0) as -> by lia. vm_compute. discriminate.
  - reflexivity.
Defined.

(** X14: the hold fraction of the last slot is never compared: when no
    slot but possibly the last has a hold fraction above [mt], the
    sprite is shown as itself; so is a sprite whose slot 0 has no
    positive hold fraction, whatever its other slots hold. *)
Theorem animation_stays (U : Shader.Inputs) (sc A : Z) :
  animationBound U sc ->
  0 <= A < sc ->
  let mt := Glsl.mod_ (Shader.time U * Glsl.z4 (slot U A 0)) 1 in
  (Glsl.y4 (slot U A 0) <= 0)%Q \/
  (forall j, scanned U j -> (Glsl.y4 (slot U A j) <= mt)%Q) ->
  Shader.resolveAnimation U (inject_Z A) = inject_Z A.
Proof.
  intros Hbound HA mt Hcase.
  pose proof Hbound as (HMAX & Hsc & Hcount & Hw & Hh).
  unfold Shader.resolveAnimation.
  rewrite (fetch_slot_0 U sc A Hsc Hcount Hw Hh). fold (slot U A 0).
  destruct (Glsl.gt (Glsl.y4 (slot U A 0)) 0) eqn:Hgt; [|reflexivity].
  destruct Hcase as [Hstatic|Hmiss].
  { apply gt_true in Hgt. lra. }
  cbv zeta. fold mt.
  apply (animationLoop_misses U sc A mt Hbound _ 0).
  - reflexivity.
  - apply Hmiss. by left.
  - intros j Hj0 Hj2. apply Hmiss.
    destruct (Z.eq_dec j 0) as [->|]; [by left|]. right. lia.
Qed.

Lemma animation_stays_witness :
  Shader.resolveAnimation (chainedInputs (5 # 8)) 0 = 0%Q.
Proof.
  refine (animation_stays (chainedInputs (5 # 8)) 2 0 _ _ _).
  - repeat split; vm_compute; congruence.
  - lia.
  - right. intros j [->|[Hj0 Hj2]].
    + vm_compute. discriminate.
    + simpl in Hj2. assert (j = 0 \/ j = 1) as [->| ->] by lia; vm_compute; discriminate.
Defined.

(** ** From the API to the pixel *)




Lemma fresh_static (a : Arg.ISpriteMapMaterial) (m : SpriteMapMaterial)
    (A : Z) (time : Q) (spriteMapSize : Glsl.vec2)
    (spriteDiffuse : Glsl.vec2 -> Glsl.vec4) (unassigned : Q) :
  constructor a = Normal m ->
  0 <= A < spriteCount (params m) ->
  Shader.resolveAnimation (shaderInputs m time spriteMapSize spriteDiffuse unassigned)
    (inject_Z A) = inject_Z A.
Proof.
  intros Hm HA. destruct (constructor_inv a m Hm) as (_ & _ & Hfresh & _).
  rewrite createTileAnimationBuffer_zeros in Hfresh.
  unfold Shader.resolveAnimation, shaderInputs, Glsl.texture2D.
  cbn [Shader.animationBuffer Shader.spriteCount Shader.time Shader.MAX_ANIMATION_FRAMES].
  rewrite Hfresh, texel_zeros. reflexivity.
Qed.

(** X16: on a material as constructed nothing is animated: at every
    time the sampler shows each sprite as itself. *)
Theorem fresh_material_is_static (a : Arg.ISpriteMapMaterial) (m : SpriteMapMaterial)
    (A : Z) (time : Q) (spriteMapSize : Glsl.vec2)
    (spriteDiffuse : Glsl.vec2 -> Glsl.vec4) (unassigned : Q) :
  constructor a = Normal m ->
  0 <= A < spriteCount (params m) ->
  Shader.resolveAnimation (shaderInputs m time spriteMapSize spriteDiffuse unassigned)
    (inject_Z A) = inject_Z A.
Proof. exact (fresh_static a m A time spriteMapSize spriteDiffuse unassigned). Qed.

Lemma fresh_material_is_static_witness :
  Shader.resolveAnimation (shaderInputs smallMaterial (3 # 7) (Glsl.mkVec2 32 32)
                             coordinateImage 0) (inject_Z 1) = inject_Z 1.
Proof.
  apply (fresh_material_is_static smallArg smallMaterial 1); [reflexivity|].
  vm_compute. split; [discriminate | reflexivity].
Defined.

Lemma fresh_tiles (a : Arg.ISpriteMapMaterial) (m : SpriteMapMaterial)
    (i cx cy : Z) (time : Q) (spriteMapSize : Glsl.vec2)
    (spriteDiffuse : Glsl.vec2 -> Glsl.vec4) (unassigned : Q) :
  constructor a = Normal m ->
  0 <= i < layerCount (params m) ->
  0 <= cx < stageX (stageSize (params m)) ->
  0 <= cy < stageY (stageSize (params m)) ->
  Shader.layerSample (shaderInputs m time spriteMapSize spriteDiffuse unassigned) i
    (Glsl.mkVec2 (inject_Z cx) (inject_Z cy)) =
  if i =? 0 then baseTile (params m) else 0%Q.
Proof.
  intros Hm Hi Hcx Hcy. destruct (constructor_inv a m Hm) as (_ & _ & _ & Htb).
  set (p := params m) in *.
  assert (Hlk : _tileBuffers m !! Z.to_nat i = Some (_createTileBuffer p None i)).
  { rewrite Htb.
    pose proof (pushTileBuffers_lookup p (Z.to_nat (layerCount p)) 0 [] (Z.to_nat i)
                  ltac:(lia)) as H.
    simpl in H. rewrite H. do 2 f_equal. lia. }
  unfold Shader.layerSample, shaderInputs.
  cbn [Shader.LAYERS Shader.tileBuffers Shader.stageSize Glsl.x2 Glsl.y2].
  fold p. rewrite decide_True by lia. rewrite Hlk.
  set (w := stageX (stageSize p)) in *. set (h := stageY (stageSize p)) in *.
  assert (Ht : _createTileBuffer p None i =
               CreateRGBATexture
                 (cells (Z.to_nat h * Z.to_nat w) (if i =? 0 then baseTile p else 0%Q)) w h).
  { unfold _createTileBuffer. cbv zeta. fold w h.
    rewrite !orZero_id, pushRows_cells, app_nil_l.
    by destruct (i =? 0). }
  rewrite Ht. rewrite (tile_fetch _ w h) by (reflexivity || lia).
  rewrite texel_inside by (cbn [width height CreateRGBATexture]; lia). cbv zeta.
  cbn [width height _bufferView CreateRGBATexture nullish Glsl.x4].
  destruct (lookup_cells (Z.to_nat h * Z.to_nat w) (if i =? 0 then baseTile p else 0%Q)
              (Z.to_nat (cy * w + cx)) ltac:(nia)) as (H0 & _).
  replace (Z.to_nat ((cy * w + cx) * 4 + 0)) with (Z.to_nat (cy * w + cx) * 4)%nat by nia.
  by rewrite H0.
Qed.

(** X17: on a material as constructed the sampler's tile lookup yields
    [baseTile] on layer 0 and 0 on every other layer, at every tile of
    the stage. *)
Theorem fresh_material_tiles (a : Arg.ISpriteMapMaterial) (m : SpriteMapMaterial)
    (i cx cy : Z) (time : Q) (spriteMapSize : Glsl.vec2)
    (spriteDiffuse : Glsl.vec2 -> Glsl.vec4) (unassigned : Q) :
  constructor a = Normal m ->
  0 <= i < layerCount (params m) ->
  0 <= cx < stageX (stageSize (params m)) ->
  0 <= cy < stageY (stageSize (params m)) ->
  Shader.layerSample (shaderInputs m time spriteMapSize spriteDiffuse unassigned) i
    (Glsl.mkVec2 (inject_Z cx) (inject_Z cy)) =
  if i =? 0 then baseTile (params m) else 0%Q.
Proof. exact (fresh_tiles a m i cx cy time spriteMapSize spriteDiffuse unassigned). Qed.

Lemma fresh_material_tiles_witness :
  Shader.layerSample (shaderInputs smallMaterial 0 (Glsl.mkVec2 32 32) coordinateImage 0) 0
    (Glsl.mkVec2 (inject_Z 1) (inject_Z 1)) = 1%Q.
Proof.
  apply (fresh_material_tiles smallArg smallMaterial 0 1 1); [reflexivity|..];
    vm_compute; (split; [discriminate | reflexivity]).
Defined.

(** ** The layer loop *)

Lemma mix_inUnit a b t :
  (0 <= a <= 1)%Q -> (0 <= b <= 1)%Q -> (0 <= t <= 1)%Q -> (0 <= Glsl.mix a b t <= 1)%Q.
Proof. unfold Glsl.mix. intros Ha Hb Ht. split; nra. Qed.

Lemma blend_inUnit i sColor nc :
  inUnit sColor -> inUnit nc -> inUnit (Shader.blend i sColor nc).
Proof.
  intros (Hx & Hy & Hz & Hw) (Hx' & Hy' & Hz' & Hw'). unfold Shader.blend.
  destruct (i =? 0); [unfold inUnit; tauto|].
  unfold inUnit. cbn [Glsl.x4 Glsl.y4 Glsl.z4 Glsl.w4].
  split; [by apply mix_inUnit|]. split; [by apply mix_inUnit|].
  split; [by apply mix_inUnit|].
  rewrite min_Qmin.
  destruct (Q.min_spec (Glsl.w4 sColor + Glsl.w4 nc) 1) as [[Hlt Heq]|[Hle Heq]];
    rewrite Heq; lra.
Qed.

Lemma layerLoop_inUnit U n i tileID l :
  (forall c, inUnit (Shader.spriteDiffuse U c)) ->
  inUnit (Shader.sColor l) ->
  inUnit (Shader.sColor (Shader.layerLoop U n i tileID l)).
Proof.
  intros Himg. revert i l. induction n as [|n IH]; intros i l Hl; [exact Hl|].
  simpl. apply IH. rewrite layerBody_sColor. by apply blend_inUnit.
Qed.

(** X18: when every component of the source image lies in [0, 1], so
    does every component of the composite, for any number of layers;
    the alpha in particular never exceeds 1. *)
Theorem composite_stays_in_range (U : Shader.Inputs) (tUV : Glsl.vec2) :
  (forall c, inUnit (Shader.spriteDiffuse U c)) ->
  inUnit (Shader.Fragment_Custom_Diffuse U tUV).
Proof.
  intros Himg. unfold Shader.Fragment_Custom_Diffuse.
  apply layerLoop_inUnit; [exact Himg|].
  unfold Shader.initialLocals. cbn [Shader.sColor]. unfold inUnit, Glsl.vec4_0. simpl.
  repeat split; lra.
Qed.

Lemma composite_stays_in_range_witness :
  inUnit (Shader.Fragment_Custom_Diffuse flatInputs (Glsl.mkVec2 (1 # 4) (3 # 4))).
Proof.
  apply (composite_stays_in_range flatInputs).
  intros c. unfold inUnit. simpl. repeat split; lra.
Defined.

(** X19: over an accumulated colour, a fully transparent sample changes
    no colour channel, and a fully opaque sample replaces all three and
    makes the composite opaque when the accumulated alpha is not
    negative. *)
Theorem blend_transparent_and_opaque (i : Z) (sColor nc : Glsl.vec4) :
  0 < i ->
  let out := Shader.blend i sColor nc in
  ((Glsl.w4 nc == 0)%Q ->
   (Glsl.x4 out == Glsl.x4 sColor)%Q /\ (Glsl.y4 out == Glsl.y4 sColor)%Q /\
   (Glsl.z4 out == Glsl.z4 sColor)%Q /\ (Glsl.w4 out == Qmin (Glsl.w4 sColor) 1)%Q) /\
  ((Glsl.w4 nc == 1)%Q ->
   (Glsl.x4 out == Glsl.x4 nc)%Q /\ (Glsl.y4 out == Glsl.y4 nc)%Q /\
   (Glsl.z4 out == Glsl.z4 nc)%Q /\
   ((0 <= Glsl.w4 sColor)%Q -> (Glsl.w4 out == 1)%Q)).
Proof.
  intros Hi out. unfold out. rewrite blend_over by lia.
  cbn [Glsl.x4 Glsl.y4 Glsl.z4 Glsl.w4]. unfold Glsl.mix. split; intros Ha.
  - rewrite min_Qmin, Ha. repeat split; try ring.
    assert (H : (Glsl.w4 sColor + 0 == Glsl.w4 sColor)%Q) by ring.
    by rewrite H.
  - rewrite min_Qmin, Ha. repeat split; try ring.
    intros H0. apply Q.min_r. lra.
Qed.

Lemma blend_transparent_and_opaque_witness :
  (Glsl.x4 (Shader.blend 1 (Glsl.mkVec4 (1 # 3) 0 1 (1 # 2)) (Glsl.mkVec4 1 1 1 0)) == 1 # 3)%Q /\
  (Glsl.x4 (Shader.blend 1 (Glsl.mkVec4 (1 # 3) 0 1 (1 # 2)) (Glsl.mkVec4 (2 # 3) 1 1 1))
   == 2 # 3)%Q.
Proof.
  split.
  - refine (proj1 (proj1 (blend_transparent_and_opaque 1 (Glsl.mkVec4 (1 # 3) 0 1 (1 # 2))
                            (Glsl.mkVec4 1 1 1 0) _) _)); [lia | reflexivity].
  - refine (proj1 (proj2 (blend_transparent_and_opaque 1 (Glsl.mkVec4 (1 # 3) 0 1 (1 # 2))
                            (Glsl.mkVec4 (2 # 3) 1 1 1) _) _)); [lia | reflexivity].
Defined.

Lemma swap_swap v : swap (swap v) = v.
Proof. by destruct v. Qed.

Lemma layerCoord_tileUV U i tileID tileUV :
  fst (Shader.layerCoord U i tileID tileUV) =
  if Glsl.eq (layerRotated U i tileID) 1 then swap tileUV else tileUV.
Proof. unfold Shader.layerCoord, layerRotated, swap. cbv zeta. cbn [fst]. reflexivity. Qed.

(** X20: the swap of a rotated layer stays in [tileUV] for the layers
    after it: after [n] layers the coordinate is the one the loop
    started with when an even number of them showed a rotated frame,
    and its swap when the number was odd. *)
Theorem tileUV_after_layers (U : Shader.Inputs) (n : nat) (i : Z) (tileID : Glsl.vec2)
    (l : Shader.Locals) :
  Shader.tileUV (Shader.layerLoop U n i tileID l) =
  if Nat.even (rotatedLayers U tileID n i) then Shader.tileUV l
  else swap (Shader.tileUV l).
Proof.
  revert i l. induction n as [|n IH]; intros i l; [reflexivity|].
  cbn [Shader.layerLoop rotatedLayers]. rewrite IH, layerBody_tileUV, layerCoord_tileUV.
  destruct (Glsl.eq (layerRotated U i tileID) 1).
  - change (1 + rotatedLayers U tileID n (i + 1))%nat
      with (S (rotatedLayers U tileID n (i + 1))).
    rewrite Nat.even_succ, <- Nat.negb_even.
    destruct (Nat.even (rotatedLayers U tileID n (i + 1))); simpl;
      [reflexivity | apply swap_swap].
  - reflexivity.
Qed.

(** ** Where the base layer reads the source image *)

Lemma buildFrameBuffer_complete sprites t :
  _buildFrameBuffer sprites = Normal t -> forallb complete sprites = true.
Proof.
  intros H. destruct (forallb complete sprites) eqn:Hc; [reflexivity|].
  unfold _buildFrameBuffer in H. cbv zeta in H.
  rewrite secondPass_incomplete in H by exact Hc. discriminate.
Qed.

Lemma rotated_test b : Glsl.eq (flag b) 1 = b.
Proof. by destruct b. Qed.

(** X24: on a material as constructed, layer 0 reads the source image,
    for a tile of the stage and a fractional coordinate [tileUV], at
    [uv * (frame.h / sheetWidth, frame.w / sheetHeight) + (frame.x /
    sheetWidth, frame.y / sheetHeight)], where [frame] is the rectangle
    of the base tile and [uv] is [tileUV], swapped when the base tile is
    rotated: the horizontal extent is the frame's height and the
    vertical one its width ([frameData[0].wz]). *)
Theorem base_layer_read (a : Arg.ISpriteMapMaterial) (m : SpriteMapMaterial)
    (b cx cy : Z) (s : ISpriteJSONSprite) (f : Rect) (tileUV : Glsl.vec2) (time : Q)
    (spriteMapSize : Glsl.vec2) (spriteDiffuse : Glsl.vec2 -> Glsl.vec4) (unassigned : Q) :
  constructor a = Normal m ->
  1 <= layerCount (params m) ->
  0 <= cx < stageX (stageSize (params m)) ->
  0 <= cy < stageY (stageSize (params m)) ->
  baseTile (params m) = inject_Z b -> 0 <= b ->
  atlas (params m) !! Z.to_nat b = Some s ->
  frame s = Some f ->
  let uv := if truthy (rotated s) then swap tileUV else tileUV in
  Shader.layerCoord (shaderInputs m time spriteMapSize spriteDiffuse unassigned) 0
    (Glsl.mkVec2 (inject_Z cx) (inject_Z cy)) tileUV =
  (uv,
   Glsl.mkVec2
     (Glsl.x2 uv * (rh f / Glsl.x2 spriteMapSize) + rx f * (1 / Glsl.x2 spriteMapSize))%Q
     (Glsl.y2 uv * (rw f / Glsl.y2 spriteMapSize) + ry f * (1 / Glsl.y2 spriteMapSize))%Q).
Proof.
  intros Hm HL Hcx Hcy Hbase Hb Hs Hf uv.
  destruct (constructor_inv a m Hm) as (Hp & Hfb & _ & _).
  assert (Hatlas : atlas (params m) = Arg.atlas a) by (rewrite Hp; reflexivity).
  rewrite Hatlas in Hs.
  pose proof (buildFrameBuffer_complete _ _ Hfb) as Hc.
  assert (Hcs : complete s = true).
  { rewrite forallb_forall in Hc. apply Hc. apply list_elem_of_In.
    eapply list_elem_of_lookup_2; exact Hs. }
  unfold complete in Hcs. rewrite Hf in Hcs.
  destruct (spriteSourceSize s) as [sss|] eqn:Hsss; [|discriminate].
  destruct (sourceSize s) as [ss|] eqn:Hss; [|discriminate].
  assert (Hrange : 0 <= b < spriteCount (params m)).
  { apply lookup_lt_Some in Hs. unfold spriteCount, sprites. rewrite Hatlas. lia. }
  set (U := shaderInputs m time spriteMapSize spriteDiffuse unassigned).
  assert (Hsample : Shader.layerSample U 0 (Glsl.mkVec2 (inject_Z cx) (inject_Z cy)) =
                    inject_Z b).
  { unfold U. rewrite (fresh_tiles a m 0 cx cy) by (assumption || lia). exact Hbase. }
  assert (Hres : Shader.resolveAnimation U (inject_Z b) = inject_Z b)
    by (unfold U; by apply (fresh_static a m b)).
  assert (Hdata : Shader.getFrameData U (inject_Z b + (1 # 2))%Q =
            Glsl.mkMat4
              (Glsl.mkVec4 (rx f) (ry f) (rw f) (rh f))
              (Glsl.mkVec4 (rx sss) (ry sss) 0 (rh sss))
              (Glsl.mkVec4 (sw ss) (sh ss) (flag (truthy (rotated s)))
                 (flag (truthy (trimmed s))))
              Glsl.vec4_0).
  { rewrite <- (Z2Nat.id b) at 1 by lia.
    apply (frame_row_decoded U (Arg.atlas a) (Z.to_nat b) s f sss ss (_frameBuffer m));
      try assumption; try reflexivity.
    unfold U, shaderInputs. cbn [Shader.spriteCount]. unfold spriteCount, sprites.
    by rewrite Hatlas. }
  unfold Shader.layerCoord. cbv zeta. rewrite Hsample, Hres, Hdata.
  cbn [Glsl.m0 Glsl.m2 Glsl.x4 Glsl.y4 Glsl.z4 Glsl.w4]. rewrite rotated_test.
  unfold uv, swap, U, shaderInputs. cbn [Shader.spriteMapSize Glsl.x2 Glsl.y2].
  destruct (truthy (rotated s)); reflexivity.
Qed.

Lemma base_layer_read_witness :
  Shader.layerCoord twoLayerInputs 0 (Glsl.mkVec2 (inject_Z 1) (inject_Z 0))
    (Glsl.mkVec2 (1 # 4) (3 # 4)) =
  (Glsl.mkVec2 (3 # 4) (1 # 4),
   Glsl.mkVec2 ((3 # 4) * (10 / 32) + 10 * (1 / 32))%Q ((1 # 4) * (12 / 32) + 0 * (1 / 32))%Q).
Proof.
  refine (base_layer_read smallArg smallMaterial 1 1 0 rotatedSprite (mkRect 10 0 12 10)
            (Glsl.mkVec2 (1 # 4) (3 # 4)) 0 (Glsl.mkVec2 32 32) coordinateImage 0
            eq_refl _ _ _ eq_refl _ eq_refl eq_refl).
  - vm_compute. discriminate.
  - vm_compute. split; [discriminate | reflexivity].
  - vm_compute. split; [discriminate | reflexivity].
  - lia.
Defined.

(** * The generated tile lookup *)

Lemma occurrences_app c s1 s2 :
  occurrences c (s1 +:+ s2) = (occurrences c s1 + occurrences c s2)%nat.
Proof. induction s1 as [|a s1 IH]; simpl; [reflexivity|]. rewrite IH. lia. Qed.

Lemma occurrences_pretty_N_go c x s :
  (forall d, Ascii.eqb (pretty_N_char d) c = false) ->
  occurrences c (pretty_N_go x s) = occurrences c s.
Proof.
  intros Hc. revert s. induction (N.lt_wf_0 x) as [x _ IH]; intros s.
  destruct (decide (x = 0)%N) as [->|Hx]; [by rewrite pretty_N_go_0|].
  rewrite pretty_N_go_step by lia. rewrite IH by (apply N.div_lt; lia).
  simpl. by rewrite Hc.
Qed.

Lemma occurrences_pretty c (i : nat) :
  (forall d, Ascii.eqb (pretty_N_char d) c = false) ->
  occurrences c (pretty i) = 0%nat.
Proof.
  intros Hc. unfold pretty, pretty_nat, pretty, pretty_N.
  case_decide.
  - pose proof (Hc 0%N) as H0. simpl in *. by rewrite H0.
  - by rewrite occurrences_pretty_N_go.
Qed.

Lemma not_a_digit (c : ascii) :
  c ∈ ["("; ")"; "{"; "}"; ":"]%char ->
  forall d, Ascii.eqb (pretty_N_char d) c = false.
Proof.
  intros Hc d. rewrite !elem_of_cons, elem_of_nil in Hc.
  unfold pretty_N_char.
  destruct Hc as [->|[->|[->|[->|[->|[]]]]]]; repeat case_match; reflexivity.
Qed.

Lemma occurrences_fallbackStatement c i :
  c ∈ ["("; ")"; "{"; "}"; ":"]%char ->
  occurrences c (fallbackStatement i) = occurrences c (fallbackStatement 0).
Proof.
  intros Hc. unfold fallbackStatement.
  rewrite !occurrences_app, !occurrences_pretty by (by apply not_a_digit). reflexivity.
Qed.

Lemma occurrences_caseStatement c i :
  c ∈ ["("; ")"; "{"; "}"; ":"]%char ->
  occurrences c (caseStatement i) = occurrences c (caseStatement 0).
Proof.
  intros Hc. unfold caseStatement.
  rewrite !occurrences_app, !occurrences_pretty by (by apply not_a_digit). reflexivity.
Qed.

Lemma occurrences_appendFallback c n i s :
  c ∈ ["("; ")"; "{"; "}"; ":"]%char ->
  occurrences c (appendFallback n i s) =
  (occurrences c s + n * occurrences c (fallbackStatement 0))%nat.
Proof.
  intros Hc. set (k := occurrences c (fallbackStatement 0)).
  revert i s. induction n as [|n IH]; intros i s; cbn [appendFallback]; [lia|].
  rewrite IH, occurrences_app, (occurrences_fallbackStatement c i Hc). fold k. lia.
Qed.

Lemma occurrences_appendCases c n i s :
  c ∈ ["("; ")"; "{"; "}"; ":"]%char ->
  occurrences c (appendCases n i s) =
  (occurrences c s + n * occurrences c (caseStatement 0))%nat.
Proof.
  intros Hc. set (k := occurrences c (caseStatement 0)).
  revert i s. induction n as [|n IH]; intros i s; cbn [appendCases]; [lia|].
  rewrite IH, !occurrences_app, (occurrences_caseStatement c i Hc). fold k.
  assert (Hb : occurrences c "break;" = 0%nat).
  { rewrite !elem_of_cons, elem_of_nil in Hc.
    destruct Hc as [->|[->|[->|[->|[->|[]]]]]]; reflexivity. }
  rewrite Hb. lia.
Qed.

(** X22: for an engine without [switch] in shaders the generated lookup
    has, for each layer, four opening and three closing parentheses
    ([tileBuffers[int(i]]): with at least one layer the text is not
    well-bracketed. *)
Theorem fallback_lookup_parentheses (p : Params) :
  let n := Z.to_nat (layerCount p) in
  occurrences "(" (layerSampleString false p) = (4 * n)%nat /\
  occurrences ")" (layerSampleString false p) = (3 * n)%nat.
Proof.
  intros n. unfold layerSampleString. cbn [negb]. fold n.
  assert (Ho : occurrences "(" (fallbackStatement 0) = 4%nat) by (vm_compute; reflexivity).
  assert (Hc : occurrences ")" (fallbackStatement 0) = 3%nat) by (vm_compute; reflexivity).
  split; rewrite occurrences_appendFallback by (rewrite !elem_of_cons; tauto);
    rewrite ?Ho, ?Hc; cbn [occurrences]; lia.
Qed.

(** X23: for an engine with [switch] the generated lookup is
    well-bracketed and has one [case] label per layer: [1 + 2 *
    layerCount] parentheses and one brace of each kind, [layerCount]
    colons. *)
Theorem switch_lookup_brackets (p : Params) :
  let n := Z.to_nat (layerCount p) in
  occurrences "(" (layerSampleString true p) = (1 + 2 * n)%nat /\
  occurrences ")" (layerSampleString true p) = (1 + 2 * n)%nat /\
  occurrences "{" (layerSampleString true p) = 1%nat /\
  occurrences "}" (layerSampleString true p) = 1%nat /\
  occurrences ":" (layerSampleString true p) = n.
Proof.
  intros n. unfold layerSampleString. cbn [negb]. fold n.
  assert (H1 : occurrences "(" (caseStatement 0) = 2%nat) by (vm_compute; reflexivity).
  assert (H2 : occurrences ")" (caseStatement 0) = 2%nat) by (vm_compute; reflexivity).
  assert (H3 : occurrences "{" (caseStatement 0) = 0%nat) by (vm_compute; reflexivity).
  assert (H4 : occurrences "}" (caseStatement 0) = 0%nat) by (vm_compute; reflexivity).
  assert (H5 : occurrences ":" (caseStatement 0) = 1%nat) by (vm_compute; reflexivity).
  repeat split; rewrite occurrences_app, occurrences_appendCases
    by (rewrite !elem_of_cons; tauto);
    rewrite ?H1, ?H2, ?H3, ?H4, ?H5; vm_compute (occurrences _ "switch(i) {");
    vm_compute (occurrences _ "}"); lia.
Qed.

Example fallback_lookup_two_layers :
  layerSampleString false smallParams =
  "if (0 == i) { frameID = texture2D(tileBuffers[int(0], (tileID + 0.5) / stageSize, 0.).x; }if (1 == i) { frameID = texture2D(tileBuffers[int(1], (tileID + 0.5) / stageSize, 0.).x; }".
Proof. reflexivity. Qed.
